(** * Affiliate pages builder: [builder/scrape_and_build.mjs]

    A shallow embedding of the build script and the properties of its
    text normaliser, link collection, two-tier extraction, image
    rehosting, orchestration loop and output templates.

    JavaScript strings are sequences of UTF-16 code units, so [length]
    below is JavaScript's [.length] (the ellipsis U+2026 is one unit).
    Values that may be [undefined] (a missing attribute, a missing field
    of a provider response) are [option jsstring].

    The libraries the script calls (axios, csv-parse, cheerio, puppeteer,
    cloudinary, fs) are a [Runtime]: each call returns or throws, and the
    calls that reach outside thread a world. Every such call and every
    [console.log] is appended to a log, so that what was called, and in
    which order, can be stated. [async] functions are computations in a
    state and exception monad; [await] is its bind. *)

From Stdlib Require Import ZArith NArith List Bool Lia Ascii String.
From stdpp Require Import gmap list pretty.
Import ListNotations.

#[local] Open Scope Z_scope.
#[local] Open Scope list_scope.

(* ===================================================================== *)
(** ** JavaScript strings *)
(* ===================================================================== *)

Module JS.

Abbreviation jsstring := (list N).

(** [undefined] is [None]. *)
Abbreviation jsval := (option (list N)).

(** An ASCII literal as a JavaScript string. *)
Fixpoint str (s : string) : jsstring :=
  match s with
  | EmptyString => []
  | String a r => N_of_ascii a :: str r
  end.

(** Code units the templates need that a literal cannot hold. *)
Definition dquote : N := 34%N.
Definition ellipsis : N := 8230%N.
Definition bullet : N := 8226%N.
Definition space : N := 32%N.

(** [quoted s] is [s] between two double quotes. *)
Definition quoted (s : jsstring) : jsstring := dquote :: s ++ [dquote].

(** Truthiness of a string and of a possibly undefined string. *)
Definition truthy_str (s : jsstring) : bool :=
  match s with [] => false | _ :: _ => true end.

Definition truthy (v : jsval) : bool :=
  match v with Some (_ :: _) => true | _ => false end.

(** [a || b] on possibly undefined strings, and the closing [|| ''] of a
    chain, after which the value is a string. *)
Definition js_or (a b : jsval) : jsval := if truthy a then a else b.

Definition or_str (a : jsval) (d : jsstring) : jsstring :=
  match a with Some (c :: s) => c :: s | _ => d end.

(** [String(v)] for the values the script converts. *)
Definition String_of (v : jsval) : jsstring :=
  match v with Some s => s | None => str "undefined" end.

(** The class [\s] of a regular expression, which is also what [trim]
    removes: WhiteSpace and LineTerminator. *)
Definition is_space (c : N) : bool :=
  ((9 <=? c) && (c <=? 13) || (c =? 32) || (c =? 160) || (c =? 5760)
   || (8192 <=? c) && (c <=? 8202) || (c =? 8232) || (c =? 8233)
   || (c =? 8239) || (c =? 8287) || (c =? 12288) || (c =? 65279))%N.

Fixpoint drop_while (p : N -> bool) (s : jsstring) : jsstring :=
  match s with
  | [] => []
  | c :: r => if p c then drop_while p r else s
  end.

Definition drop_while_end (p : N -> bool) (s : jsstring) : jsstring :=
  rev (drop_while p (rev s)).

(** [s.trim()] *)
Definition trim (s : jsstring) : jsstring :=
  drop_while_end is_space (drop_while is_space s).

(** [s.replace(/\s+/g, ' ')]: every maximal run of white space becomes
    one space. [in_run] records that the previous unit was white space. *)
Fixpoint collapse_go (in_run : bool) (s : jsstring) : jsstring :=
  match s with
  | [] => []
  | c :: r =>
      if is_space c
      then (if in_run then collapse_go true r else space :: collapse_go true r)
      else c :: collapse_go false r
  end.

Definition collapse_ws (s : jsstring) : jsstring := collapse_go false s.

(** [s.slice(b, e)] with JavaScript's clamping of both indices. *)
Definition clamp_index (len i : Z) : Z :=
  if i <? 0 then Z.max (len + i) 0 else Z.min i len.

Definition slice (s : jsstring) (b e : Z) : jsstring :=
  let len := Z.of_nat (length s) in
  let from := clamp_index len b in
  let to := clamp_index len e in
  take (Z.to_nat (to - from)) (drop (Z.to_nat from) s).

(** [s.lastIndexOf(c)] for a one-unit pattern; [-1] when absent. *)
Fixpoint lastIndexOf_from (i : Z) (found : Z) (c : N) (s : jsstring) : Z :=
  match s with
  | [] => found
  | x :: r => lastIndexOf_from (i + 1) (if (x =? c)%N then i else found) c r
  end.

Definition lastIndexOf (c : N) (s : jsstring) : Z := lastIndexOf_from 0 (-1) c s.

(** [s.startsWith(p)] *)
Fixpoint startsWith (p s : jsstring) : bool :=
  match p, s with
  | [], _ => true
  | _ :: _, [] => false
  | a :: p', b :: s' => (a =? b)%N && startsWith p' s'
  end.

(** An unanchored literal pattern: [/p/.test(s)]. *)
Fixpoint includes (p s : jsstring) : bool :=
  startsWith p s ||
  match s with
  | [] => false
  | _ :: s' => includes p s'
  end.

(** [s.split(c)] for a one-unit separator; never the empty array. *)
Fixpoint split (c : N) (s : jsstring) : list jsstring :=
  match s with
  | [] => [[]]
  | x :: r =>
      if (x =? c)%N then [] :: split c r
      else match split c r with
           | h :: t => (x :: h) :: t
           | [] => [[x]]
           end
  end.

(** [a.pop()] of a non-empty array, as a value. *)
Definition pop (a : list jsstring) : jsstring := List.last a [].

(** [s.replace(/[...]/g, by)] for a class of single units, and
    [s.replace(/c/g, by)] for one unit. *)
Definition replace_class (p : N -> bool) (by_ : jsstring) (s : jsstring) : jsstring :=
  flat_map (fun x => if p x then by_ else [x]) s.

Definition replace_all (c : N) (by_ : jsstring) (s : jsstring) : jsstring :=
  replace_class (fun x => (x =? c)%N) by_ s.

(** [a.join(sep)] *)
Fixpoint join (sep : jsstring) (a : list jsstring) : jsstring :=
  match a with
  | [] => []
  | [x] => x
  | x :: r => x ++ sep ++ join sep r
  end.

End JS.

Import JS.

(* ===================================================================== *)
(** ** Text normaliser *)
(* ===================================================================== *)

(** The class [[.,;:!?-]]. *)
Definition is_trailing_punct (c : N) : bool :=
  ((c =? 46) || (c =? 44) || (c =? 59) || (c =? 58) || (c =? 33)
   || (c =? 63) || (c =? 45))%N.

(** [s.replace(/[.,;:!?-]+$/, '')]: the leftmost match that reaches the
    end of the string is the whole trailing run. *)
Definition strip_trailing_punct (s : jsstring) : jsstring :=
  drop_while_end is_trailing_punct s.

(** [function shorten(text, limit = 120)] *)
Definition shorten (text : jsval) (limit : Z) : jsstring :=
  if negb (truthy text) then [] else
  let clean := trim (collapse_ws (String_of text)) in
  if Z.of_nat (length clean) <=? limit then clean else
  let cutoff := Z.max 0 (limit - 1) in
  let slice0 := slice clean 0 cutoff in
  let lastSpace := lastIndexOf space slice0 in
  let slice1 := if 60 <? lastSpace then slice slice0 0 lastSpace else slice0 in
  strip_trailing_punct slice1 ++ [ellipsis].

(** [shorten(text)]: the default parameter value. *)
Definition shorten_default (text : jsval) : jsstring := shorten text 120.

(** [a || b] on strings. *)
Definition str_or (a b : jsstring) : jsstring :=
  if truthy_str a then a else b.

(* ===================================================================== *)
(** ** Data model *)
(* ===================================================================== *)

(** What an extractor returns. *)
Record ExtractedMeta : Type := mkMeta {
  m_title : jsstring;
  m_description : jsstring;
  m_image : jsstring
}.

(** One entry of the gallery: [{ title, description, image, url }]. *)
Record GalleryItem : Type := mkItem {
  title : jsstring;
  description : jsstring;
  image : jsstring;
  url : jsstring
}.

(** What the cheerio selectors of the static extractor evaluate to on a
    loaded document. An attribute that is absent is [undefined]. *)
Record Document : Type := mkDocument {
  h1_first_text : jsstring;     (* $('h1').first().text() *)
  og_title : jsval;             (* meta[property=og:title], attr content *)
  title_text : jsstring;        (* $('title').text() *)
  about_text : jsstring;        (* h2:contains(About), nextUntil(h1,h2,h3,h4), text() *)
  meta_description : jsval;     (* meta[name=description], attr content *)
  og_description : jsval;       (* meta[property=og:description], attr content *)
  og_image : jsval;             (* meta[property=og:image], attr content *)
  image_src : jsval;            (* link[rel=image_src], attr href *)
  imgs : list (jsval * jsval)   (* every img: attr src, attr data-src *)
}.

(** An element as the in-page callbacks of the rendered extractor read it. *)
Record Element : Type := mkElement {
  tagName : jsstring;
  textContent : jsstring;
  content : jsstring;
  attr_src : jsval;             (* getAttribute('src'), null when absent *)
  attr_data_src : jsval         (* getAttribute('data-src') *)
}.

(** The provider's answer to an upload; [secure_url] may be missing. *)
Record UploadResult : Type := mkUpload { secure_url : jsval }.

Inductive exn : Type := Error (message : jsstring).

(** A call either returns or throws (an awaited promise resolves or
    rejects). *)
Inductive outcome (A : Type) : Type :=
| Return (a : A)
| Throw (e : exn).
Arguments Return {A} a.
Arguments Throw {A} e.

Definition Page : Type := nat.
Definition Handle : Type := nat.
Definition Browser : Type := nat.

(** Every call that leaves the script, in the order it is made. *)
Inductive event : Type :=
| EConsole (msg : jsstring)
| EHttpGet (u : jsstring)
| EHttpGetBytes (u : jsstring)
| EUpload (u : jsstring)
| EUploadStream (bytes : list N)
| ELaunch
| ENewPage (b : Browser)
| ESetUserAgent (p : Page)
| EGoto (p : Page) (u : jsstring)
| EWaitForTimeout (p : Page) (ms : Z)
| EEval (p : Page) (sel : jsstring)
| ETitle (p : Page)
| EXPath (p : Page) (xpath : jsstring)
| EEvaluate (p : Page) (h : Handle)
| EEvalAll (p : Page) (sel : jsstring)
| EClosePage (p : Page)
| ECloseBrowser (b : Browser)
| EWriteFile (path : jsstring) (data : jsstring).

(** The world outside the script: configuration read at start-up and the
    libraries it calls. Calls that reach the network, the browser or the
    file system take the world and return the next one. The fixed options
    of each call (time-outs, headers, upload options) are part of the
    operation. *)
Class Runtime : Type := {
  World : Type;
  SHEET_CSV_URL : jsstring;
  CLOUDINARY_CLOUD : jsstring;
  DIST : jsstring;
  (* axios.get(url, ...).data *)
  axios_get : jsstring -> World -> outcome jsstring * World;
  (* axios.get(url, { responseType: 'arraybuffer', ... }).data *)
  axios_get_arraybuffer : jsstring -> World -> outcome (list N) * World;
  (* parse(csv, { columns: true, skip_empty_lines: true }) *)
  csv_parse : jsstring -> outcome (list (gmap jsstring jsstring));
  (* cheerio.load(html) and its selectors *)
  cheerio_load : jsstring -> outcome Document;
  (* cloudinary.uploader.upload(imageUrl, ...) *)
  cloudinary_upload : jsstring -> World -> outcome UploadResult * World;
  (* cloudinary.uploader.upload_stream(..., cb), stream.end(buffer) *)
  cloudinary_upload_stream : list N -> World -> outcome UploadResult * World;
  puppeteer_launch : World -> outcome Browser * World;
  browser_newPage : Browser -> World -> outcome Page * World;
  browser_close : Browser -> World -> outcome unit * World;
  page_setUserAgent : Page -> jsstring -> World -> outcome unit * World;
  page_goto : Page -> jsstring -> World -> outcome unit * World;
  page_waitForTimeout : Page -> Z -> World -> outcome unit * World;
  (* page.$eval(sel, f): the first element that matches, or a throw *)
  page_eval : Page -> jsstring -> World -> outcome Element * World;
  page_title : Page -> World -> outcome jsstring * World;
  (* page.$x(xpath) *)
  page_x : Page -> jsstring -> World -> outcome (list Handle) * World;
  (* page.evaluate(f, handle): the chain of nextElementSibling of handle *)
  page_next_siblings : Page -> Handle -> World -> outcome (list Element) * World;
  (* page.$$eval(sel, f): every element that matches *)
  page_eval_all : Page -> jsstring -> World -> outcome (list Element) * World;
  page_close : Page -> World -> outcome unit * World;
  fs_writeFileSync : jsstring -> jsstring -> World -> outcome unit * World
}.

(* ===================================================================== *)
(** ** Effects: a state and exception monad over the world and its log *)
(* ===================================================================== *)

Section Effects.
Context {R : Runtime}.

Record state : Type := mkState { world : World; log : list event }.

Definition M (A : Type) : Type := state -> outcome A * state.

Definition ret {A} (a : A) : M A := fun s => (Return a, s).

Definition throw {A} (e : exn) : M A := fun s => (Throw e, s).

Definition bind {A B} (c : M A) (k : A -> M B) : M B :=
  fun s => match c s with
           | (Return a, s') => k a s'
           | (Throw e, s') => (Throw e, s')
           end.

(** [try { body } catch (e) { handler }] *)
Definition try_catch {A} (body : M A) (handler : exn -> M A) : M A :=
  fun s => match body s with
           | (Return a, s') => (Return a, s')
           | (Throw e, s') => handler e s'
           end.

(** [promise.catch(() => d)] *)
Definition catch_default {A} (c : M A) (d : A) : M A :=
  try_catch c (fun _ => ret d).

(** A call of the runtime: it is logged, then it runs. *)
Definition perform {A} (ev : event) (op : World -> outcome A * World) : M A :=
  fun s => let '(r, w) := op (world s) in
           (r, {| world := w; log := log s ++ [ev] |}).

(** A library call that touches nothing outside. *)
Definition lift {A} (o : outcome A) : M A := fun s => (o, s).

Definition console_log (msg : jsstring) : M unit :=
  fun s => (Return tt, {| world := world s; log := log s ++ [EConsole msg] |}).

End Effects.

Notation "x <~ c ;; k" := (bind c (fun x => k))
  (at level 100, c at next level, right associativity).
Notation "c ;;; k" := (bind c (fun _ => k))
  (at level 100, right associativity).

(* ===================================================================== *)
(** ** Link collection *)
(* ===================================================================== *)

(** [(r['Link'] || r['link'] || r['URL'] || r['url'] || '').trim()] *)
Definition link_of_row (r : gmap jsstring jsstring) : jsstring :=
  trim (or_str (js_or (js_or (js_or (r !! str "Link") (r !! str "link"))
                             (r !! str "URL")) (r !! str "url")) []).

(** A JavaScript [Set] of strings keeps its members in insertion order;
    adding a member again changes nothing. *)
Definition Set_add (s : list jsstring) (x : jsstring) : list jsstring :=
  if bool_decide (x ∈ s) then s else s ++ [x].

(** [Array.from(new Set(a))] *)
Definition Array_from_Set (a : list jsstring) : list jsstring :=
  fold_left Set_add a [].

(** The rows once parsed: [.map(...).filter(Boolean)], then the set. *)
Definition links_of_rows (rows : list (gmap jsstring jsstring)) : list jsstring :=
  Array_from_Set (List.filter truthy_str (List.map link_of_row rows)).

(* ===================================================================== *)
(** ** Static extraction, the pure part *)
(* ===================================================================== *)

Definition DEFAULT_DESC : jsstring :=
  str "Professional presentation template with modern, editable slides.".

Definition USER_AGENT : jsstring :=
  str "Mozilla/5.0 (Macintosh; Intel Mac OS X 10_15_7) AppleWebKit/537.36 (KHTML, like Gecko) Chrome/125 Safari/537.36".

(** The value both extractors return from their [catch]. *)
Definition fallback_meta : ExtractedMeta :=
  {| m_title := []; m_description := DEFAULT_DESC; m_image := [] |}.

(** [/wp-content\/uploads|^https?:\/\//.test(u)] *)
Definition uploads_or_absolute (u : jsstring) : bool :=
  includes (str "wp-content/uploads") u
  || startsWith (str "http://") u || startsWith (str "https://") u.

(** [if (image && image.startsWith('//')) image = 'https:' + image] *)
Definition fix_protocol (image : jsstring) : jsstring :=
  if truthy_str image && startsWith (str "//") image
  then str "https:" ++ image else image.

(** The body of the [try] of [scrapeWithCheerio] after [cheerio.load].
    cheerio's [map] leaves out the elements whose callback returns
    [undefined]. *)
Definition extract_static (d : Document) : ExtractedMeta :=
  let title :=
    or_str (js_or (js_or (Some (trim (h1_first_text d))) (og_title d))
                  (Some (trim (title_text d)))) [] in
  let desc :=
    or_str (js_or (js_or (Some (trim (collapse_ws (about_text d))))
                         (meta_description d))
                  (og_description d)) [] in
  let candidates := omap (fun '(s, ds) => js_or s ds) (imgs d) in
  let image :=
    or_str (js_or (js_or (og_image d) (image_src d))
                  (List.find uploads_or_absolute candidates)) [] in
  let image := fix_protocol image in
  {| m_title := title;
     m_description := shorten_default (Some (str_or desc DEFAULT_DESC));
     m_image := image |}.

(* ===================================================================== *)
(** ** Rendered extraction, the in-page callbacks *)
(* ===================================================================== *)

(** [/H[1-4]/.test(cur.tagName)] *)
Definition is_heading_tag (t : jsstring) : bool :=
  includes (str "H1") t || includes (str "H2") t
  || includes (str "H3") t || includes (str "H4") t.

(** The sibling walk after the About heading: [while (cur && guard++ < 20)]. *)
Fixpoint about_walk (guard : nat) (txt : jsstring) (cur : list Element) : jsstring :=
  match cur with
  | [] => txt
  | el :: next =>
      if (guard <? 20)%nat then
        if is_heading_tag (tagName el) then txt
        else about_walk (S guard) (txt ++ space :: str_or (textContent el) []) next
      else txt
  end.

(** The callback of [page.$$eval('img', ...)]. *)
Definition pick_image (els : list Element) : jsstring :=
  let srcs := List.map (fun el => or_str (js_or (attr_src el) (attr_data_src el)) []) els in
  let cf := List.find (includes (str "wp-content/uploads")) srcs in
  or_str (js_or cf (List.find (fun u => startsWith (str "http://") u
                                        || startsWith (str "https://") u) srcs)) [].

Definition sel_h1 : jsstring := str "h1".
Definition sel_img : jsstring := str "img".
Definition sel_meta_property (p : jsstring) : jsstring :=
  str "meta[property=" ++ quoted p ++ str "]".
Definition sel_meta_name (n : jsstring) : jsstring :=
  str "meta[name=" ++ quoted n ++ str "]".
Definition xpath_about : jsstring := str "//h2[contains(., 'About')]".

(* ===================================================================== *)
(** ** Output templates *)
(* ===================================================================== *)

Definition nl : jsstring := [10%N].

Definition css : jsstring :=
  str "
  :root { --gap: 16px; --radius: 14px; --shadow: 0 6px 20px rgba(0,0,0,0.08); --blue: #0B5FFF; --blue-dark: #0A4EE0; }
  * { box-sizing: border-box; }
  body { margin: 0; padding: 40px 20px; font-family: system-ui, -apple-system, Segoe UI, Roboto, Inter, Arial, sans-serif; color: #111; background: #fafafa; }
  .wrap { max-width: 1040px; margin: 0 auto; }
  h1 { font-size: 44px; line-height: 1.12; margin: 0 0 8px; letter-spacing: -0.02em; }
  .subtitle { font-size: 18px; color: #444; margin-bottom: 28px; }
  hr { border: none; border-top: 1px solid #e9e9e9; margin: 16px 0 28px; }
  .grid { display: grid; grid-template-columns: repeat(2, minmax(0, 1fr)); gap: var(--gap); }
  @media (max-width: 720px) { .grid { grid-template-columns: 1fr; } }
  .card { background: #fff; border: 1px solid #eee; border-radius: var(--radius); overflow: hidden; box-shadow: var(--shadow); display: flex; flex-direction: column; transition: transform .12s ease, box-shadow .12s ease; }
  .card:hover { transform: translateY(-2px); box-shadow: 0 10px 26px rgba(0,0,0,0.10); }
  .cover { position: relative; width: 100%; padding-top: 66.66%; overflow: hidden; background: #f2f2f2; }
  .cover img { position: absolute; inset: 0; width: 100%; height: 100%; object-fit: cover; }
  .content { padding: 14px 14px 18px; display: flex; flex-direction: column; gap: 8px; }
  .title { font-weight: 650; font-size: 16px; line-height: 1.3; }
  .desc { font-size: 14px; color: #555; line-height: 1.4; white-space: nowrap; overflow: hidden; text-overflow: ellipsis; }
  .actions { margin-top: 6px; }
  .btn { display: inline-block; text-decoration: none; border: 1px solid var(--blue); background: var(--blue); color: #fff; padding: 10px 14px; border-radius: 10px; font-size: 14px; font-weight: 600; transition: background .12s ease, color .12s ease, border-color .12s ease; }
  .btn:hover { background: var(--blue-dark); border-color: var(--blue-dark); color: #fff; }".

Definition head : jsstring :=
  str "<!DOCTYPE html><html lang="
  ++ quoted (str "en")
  ++ str "><head><meta charset="
  ++ quoted (str "utf-8")
  ++ str "/><meta name="
  ++ quoted (str "viewport")
  ++ str " content="
  ++ quoted (str "width=device-width, initial-scale=1")
  ++ str "/><title>Free Digital Products</title><style>"
  ++ css
  ++ str "</style></head><body><div class="
  ++ quoted (str "wrap")
  ++ str "><h1>Free Digital Products</h1><div class="
  ++ quoted (str "subtitle")
  ++ str ">Curated resources for creators, designers, and marketers. Download and use them in your next project.</div><hr/><div class="
  ++ quoted (str "grid")
  ++ str ">".

Definition tail : jsstring :=
  str "</div><div class="
  ++ quoted (str "footer")
  ++ str " style="
  ++ quoted (str "margin-top:36px;font-size:13px;color:#666;")
  ++ str ">Images hosted on Cloudinary "
  ++ [bullet]
  ++ str " Auto-built from Google Sheets.</div></div></body></html>".

(** [esc] of [htmlTemplate]: four replacements, in this order. *)
Definition html_esc (s : jsstring) : jsstring :=
  replace_all 34 (str "&quot;")
    (replace_all 62 (str "&gt;")
       (replace_all 60 (str "&lt;")
          (replace_all 38 (str "&amp;") (str_or s [])))).

(** One card of the gallery. *)
Definition card (it : GalleryItem) : jsstring :=
  nl ++ str "    <article class=" ++ quoted (str "card") ++ str ">" ++ nl
  ++ str "      <div class=" ++ quoted (str "cover") ++ str "><img src="
  ++ quoted (html_esc (image it)) ++ str " alt="
  ++ quoted (html_esc (title it) ++ str " cover") ++ str " /></div>" ++ nl
  ++ str "      <div class=" ++ quoted (str "content") ++ str ">" ++ nl
  ++ str "        <div class=" ++ quoted (str "title") ++ str ">"
  ++ html_esc (title it) ++ str "</div>" ++ nl
  ++ str "        <div class=" ++ quoted (str "desc") ++ str ">"
  ++ html_esc (description it) ++ str "</div>" ++ nl
  ++ str "        <div class=" ++ quoted (str "actions") ++ str "><a class="
  ++ quoted (str "btn") ++ str " href=" ++ quoted (html_esc (url it))
  ++ str " target=" ++ quoted (str "_blank") ++ str " rel="
  ++ quoted (str "noopener") ++ str ">Download for Free</a></div>" ++ nl
  ++ str "      </div>" ++ nl
  ++ str "    </article>" ++ nl
  ++ str "  ".

Definition htmlTemplate (items : list GalleryItem) : jsstring :=
  head ++ join nl (List.map card items) ++ tail.

(* ===================================================================== *)
(** ** [JSON.stringify(items, null, 2)] *)
(* ===================================================================== *)

(** The built-in serialiser, as ECMAScript defines it, on what the script
    gives it: an array of objects with the four string properties
    [title], [description], [image] and [url], in this order, no
    replacer, and an indentation of two spaces. *)

Definition hex_digit (d : N) : N :=
  if (d <? 10)%N then (48 + d)%N else (87 + d)%N.

(** [UnicodeEscape]: a backslash, [u] and four lowercase hexadecimal
    digits. *)
Definition UnicodeEscape (c : N) : jsstring :=
  [92; 117; hex_digit (c / 4096); hex_digit ((c / 256) mod 16);
   hex_digit ((c / 16) mod 16); hex_digit (c mod 16)]%N.

Definition is_leading_surrogate (c : N) : bool :=
  ((55296 <=? c) && (c <=? 56319))%N.

Definition is_trailing_surrogate (c : N) : bool :=
  ((56320 <=? c) && (c <=? 57343))%N.

(** A code point that is one code unit: the seven short escapes, the
    other control characters and the lone surrogates as [UnicodeEscape],
    anything else as it is. *)
Definition quote_code_unit (c : N) : jsstring :=
  if (c =? 8)%N then str "\b"
  else if (c =? 9)%N then str "\t"
  else if (c =? 10)%N then str "\n"
  else if (c =? 12)%N then str "\f"
  else if (c =? 13)%N then str "\r"
  else if (c =? 34)%N then [92%N; dquote]
  else if (c =? 92)%N then str "\\"
  else if (c <? 32)%N || is_leading_surrogate c || is_trailing_surrogate c
       then UnicodeEscape c
  else [c].

(** The code points of a string, each quoted: a leading surrogate and
    the trailing surrogate after it are one code point, kept as it is. *)
Fixpoint quote_code_points (s : jsstring) : jsstring :=
  match s with
  | [] => []
  | c :: r =>
      match r with
      | d :: r' =>
          if is_leading_surrogate c && is_trailing_surrogate d
          then c :: d :: quote_code_points r'
          else quote_code_unit c ++ quote_code_points r
      | [] => quote_code_unit c
      end
  end.

Definition QuoteJSONString (s : jsstring) : jsstring :=
  quoted (quote_code_points s).

(** The indentation unit for the space argument [2]. *)
Definition JSON_gap : jsstring := str "  ".

(** An object or an array with its parts, one per line, indented one
    unit more than [stepback]. *)
Definition JSON_block (opening closing : N) (stepback : jsstring)
    (partial : list jsstring) : jsstring :=
  match partial with
  | [] => [opening; closing]
  | _ :: _ =>
      let indent := stepback ++ JSON_gap in
      [opening] ++ nl ++ indent
      ++ join (str "," ++ nl ++ indent) partial
      ++ nl ++ stepback ++ [closing]
  end.

Definition JSON_member (key value : jsstring) : jsstring :=
  QuoteJSONString key ++ str ": " ++ QuoteJSONString value.

(** [SerializeJSONObject] of an item: its properties in the order of
    their creation. *)
Definition SerializeJSONObject (stepback : jsstring) (it : GalleryItem)
  : jsstring :=
  JSON_block 123 125 stepback
    [JSON_member (str "title") (title it);
     JSON_member (str "description") (description it);
     JSON_member (str "image") (image it);
     JSON_member (str "url") (url it)].

(** [SerializeJSONArray] of the item list. *)
Definition JSON_stringify (items : list GalleryItem) : jsstring :=
  JSON_block 91 93 [] (List.map (SerializeJSONObject JSON_gap) items).

(* ===================================================================== *)
(** ** The table *)
(* ===================================================================== *)

(** [esc] of [writeArtifacts]: quote the field, double its quotes. *)
Definition csv_esc (s : jsstring) : jsstring :=
  quoted (replace_all dquote [dquote; dquote] (str_or s [])).

Definition csv_header : jsstring :=
  str "Name,Description,Image URL,Download Link" ++ nl.

Definition csv_fields (p : GalleryItem) : list jsstring :=
  [title p; description p; image p; url p].

Definition csv_row (p : GalleryItem) : jsstring :=
  join (str ",") (List.map csv_esc (csv_fields p)).

Definition csv_body (items : list GalleryItem) : jsstring :=
  join nl (List.map csv_row items).

(** [path.join(DIST, name)], [DIST] being resolved and [name] plain. *)
Definition path_join (dir name : jsstring) : jsstring :=
  dir ++ str "/" ++ name.

(* ===================================================================== *)
(** ** The script *)
(* ===================================================================== *)

Section Script.
Context {R : Runtime}.

(** [async function fetchSheetCsv(url)] *)
Definition fetchSheetCsv (u : jsstring) : M jsstring :=
  perform (EHttpGet u) (axios_get u).

(** [function parseLinks(csv)]; [parse] may throw on malformed input. *)
Definition parseLinks (csv : jsstring) : M (list jsstring) :=
  rows <~ lift (csv_parse csv) ;;
  ret (links_of_rows rows).

(** [async function scrapeWithCheerio(url)] *)
Definition scrapeWithCheerio (u : jsstring) : M ExtractedMeta :=
  try_catch
    (html <~ perform (EHttpGet u) (axios_get u) ;;
     doc <~ lift (cheerio_load html) ;;
     ret (extract_static doc))
    (fun _ => ret fallback_meta).

(** [page.$eval(sel, f).catch(() => '')] *)
Definition eval_or_empty (page : Page) (sel : jsstring)
    (f : Element -> jsstring) : M jsstring :=
  catch_default
    (el <~ perform (EEval page sel) (page_eval page sel) ;; ret (f el)) [].

(** The body of the [try] of [scrapeWithPuppeteer] down to line 128:
    navigation and the three fields. *)
Definition read_page (page : Page) (u : jsstring) : M ExtractedMeta :=
  perform (EGoto page u) (page_goto page u) ;;;
  perform (EWaitForTimeout page 1200) (page_waitForTimeout page 1200) ;;;
  t1 <~ eval_or_empty page sel_h1 (fun el => trim (textContent el)) ;;
  title <~ (if truthy_str t1 then ret t1 else
            t2 <~ eval_or_empty page (sel_meta_property (str "og:title")) content ;;
            if truthy_str t2 then ret t2 else
            perform (ETitle page) (page_title page)) ;;
  ogDesc <~ eval_or_empty page (sel_meta_name (str "description")) content ;;
  ogDesc2 <~ eval_or_empty page (sel_meta_property (str "og:description")) content ;;
  let description := str_or (str_or ogDesc ogDesc2) [] in
  description <~ (if negb (truthy_str description) then
                    about <~ perform (EXPath page xpath_about) (page_x page xpath_about) ;;
                    match about with
                    | handle :: _ =>
                        sibs <~ perform (EEvaluate page handle)
                                        (page_next_siblings page handle) ;;
                        ret (trim (collapse_ws (about_walk 0 [] sibs)))
                    | [] => ret description
                    end
                  else ret description) ;;
  let description := shorten_default (Some (str_or description DEFAULT_DESC)) in
  image <~ eval_or_empty page (sel_meta_property (str "og:image")) content ;;
  image <~ (if negb (truthy_str image) then
              catch_default
                (els <~ perform (EEvalAll page sel_img) (page_eval_all page sel_img) ;;
                 ret (pick_image els)) []
            else ret image) ;;
  let image := fix_protocol image in
  ret {| m_title := title; m_description := description; m_image := image |}.

(** The whole body of the [try]: the fields, then [await page.close()]
    and the [return]. *)
Definition scrape_page (page : Page) (u : jsstring) : M ExtractedMeta :=
  meta <~ read_page page u ;;
  perform (EClosePage page) (page_close page) ;;;
  ret meta.

(** [async function scrapeWithPuppeteer(browser, url)]: the page is
    opened and configured before the [try]. *)
Definition scrapeWithPuppeteer (browser : Browser) (u : jsstring) : M ExtractedMeta :=
  page <~ perform (ENewPage browser) (browser_newPage browser) ;;
  perform (ESetUserAgent page) (page_setUserAgent page USER_AGENT) ;;;
  try_catch
    (scrape_page page u)
    (fun _ =>
       perform (EClosePage page) (page_close page) ;;;
       ret fallback_meta).

(** [async function uploadToCloudinary(imageUrl)] *)
Definition uploadToCloudinary (imageUrl : jsstring) : M jsval :=
  if negb (truthy_str imageUrl) then ret (Some []) else
  try_catch
    (res <~ perform (EUpload imageUrl) (cloudinary_upload imageUrl) ;;
     ret (secure_url res))
    (fun _ =>
       try_catch
         (buffer <~ perform (EHttpGetBytes imageUrl) (axios_get_arraybuffer imageUrl) ;;
          streamRes <~ perform (EUploadStream buffer) (cloudinary_upload_stream buffer) ;;
          ret (secure_url streamRes))
         (fun _ => ret (Some []))).

(** [function writeArtifacts(items)] *)
Definition write_file (name data : jsstring) : M unit :=
  perform (EWriteFile (path_join DIST name) data)
          (fs_writeFileSync (path_join DIST name) data).

Definition writeArtifacts (items : list GalleryItem) : M unit :=
  write_file (str "data.json") (JSON_stringify items) ;;;
  write_file (str "products.csv") (csv_header ++ csv_body items) ;;;
  write_file (str "index.html") (htmlTemplate items).

(** The placeholder of [main], built against the configured cloud. *)
Definition placeholder : jsstring :=
  str "https://res.cloudinary.com/" ++ CLOUDINARY_CLOUD
  ++ str "/image/upload/c_fill,w_1200,h_800,f_auto,q_auto/v1/https://placehold.co/1200x800/jpg".

(** The class [[-_]]. *)
Definition is_dash_or_underscore (c : N) : bool := ((c =? 45) || (c =? 95))%N.

(** [url.split('/').pop().replace(/[-_]/g, ' ')] *)
Definition title_from_url (u : jsstring) : jsstring :=
  replace_class is_dash_or_underscore [space] (pop (split 47 u)).

(** Lines 241 to 245: the fast path, then the browser when it found no
    image. *)
Definition extract (browser : Browser) (u : jsstring) : M ExtractedMeta :=
  meta <~ scrapeWithCheerio u ;;
  if negb (truthy_str (m_image meta)) then
    console_log (str "  -> Fallback to Puppeteer") ;;;
    scrapeWithPuppeteer browser u
  else ret meta.

(** Lines 247 to 253: what is pushed for a link, given what extraction
    and rehosting returned. *)
Definition make_item (u : jsstring) (meta : ExtractedMeta) (img : jsval) : GalleryItem :=
  {| title := str_or (m_title meta) (title_from_url u);
     description := m_description meta;
     image := or_str img placeholder;
     url := u |}.

(** The body of the [for] loop of [main]. *)
Definition process_link (browser : Browser) (u : jsstring) : M GalleryItem :=
  console_log (str "Parsing: " ++ u) ;;;
  meta <~ extract browser u ;;
  img <~ uploadToCloudinary (m_image meta) ;;
  (if negb (truthy img)
   then console_log (str "  -> Image upload failed, using placeholder")
   else ret tt) ;;;
  ret (make_item u meta img).

(** [for (const url of links) { ...; items.push(...) }] *)
Fixpoint for_links (browser : Browser) (links : list jsstring)
    (items : list GalleryItem) : M (list GalleryItem) :=
  match links with
  | [] => ret items
  | u :: rest =>
      it <~ process_link browser u ;;
      for_links browser rest (items ++ [it])
  end.

(** Lines 237 to 255: from the links to the item list. *)
Definition run (links : list jsstring) : M (list GalleryItem) :=
  browser <~ perform ELaunch puppeteer_launch ;;
  items <~ for_links browser links [] ;;
  perform (ECloseBrowser browser) (browser_close browser) ;;;
  ret items.

(** Lines 256 to 258. *)
Definition publish (items : list GalleryItem) : M unit :=
  writeArtifacts items ;;;
  console_log (str "Build complete: dist/index.html, dist/data.json, dist/products.csv").

(** [async function main()] *)
Definition main : M unit :=
  console_log (str "Fetching sheet CSV...") ;;;
  csv <~ fetchSheetCsv SHEET_CSV_URL ;;
  links <~ parseLinks csv ;;
  if (length links =? 0)%nat then throw (Error (str "No links found in sheet.")) else
  console_log (str "Found " ++ str (pretty (length links)) ++ str " links.") ;;;
  items <~ run links ;;
  publish items.

End Script.

(* ===================================================================== *)
(** ** Reference definitions the statements compare with *)
(* ===================================================================== *)

(** Deduplication that keeps the first occurrence of every string, as the
    specification words it. *)
Fixpoint first_seen (l : list jsstring) : list jsstring :=
  match l with
  | [] => []
  | x :: r => x :: List.filter (fun y => negb (bool_decide (y = x))) (first_seen r)
  end.

(** ASCII case folding, to compare column names without regard to case. *)
Definition lower (c : N) : N :=
  if ((65 <=? c) && (c <=? 90))%N then (c + 32)%N else c.

Definition eq_ignore_case (a b : jsstring) : bool :=
  bool_decide (List.map lower a = List.map lower b).

(** HTML escaping as one pass over the units. *)
Definition esc_unit (c : N) : jsstring :=
  if (c =? 38)%N then str "&amp;"
  else if (c =? 60)%N then str "&lt;"
  else if (c =? 62)%N then str "&gt;"
  else if (c =? 34)%N then str "&quot;"
  else [c].

(** What a reader of the page gets back from the four entities; [skip]
    counts the units of an entity still to be passed over. *)
Fixpoint html_unesc_go (skip : nat) (s : jsstring) : jsstring :=
  match s with
  | [] => []
  | c :: r =>
      match skip with
      | S k => html_unesc_go k r
      | O =>
          if startsWith (str "&amp;") s then 38%N :: html_unesc_go 4 r
          else if startsWith (str "&lt;") s then 60%N :: html_unesc_go 3 r
          else if startsWith (str "&gt;") s then 62%N :: html_unesc_go 3 r
          else if startsWith (str "&quot;") s then 34%N :: html_unesc_go 5 r
          else c :: html_unesc_go 0 r
      end
  end.

Definition html_unesc (s : jsstring) : jsstring := html_unesc_go 0 s.

(** The units that delimit markup and attribute values. *)
Definition is_markup_delimiter (c : N) : bool :=
  ((c =? 60) || (c =? 62) || (c =? 34))%N.

(** How often a unit occurs in a string. *)
Definition occurrences (c : N) (s : jsstring) : nat := count_occ N.eq_dec s c.

(** An item with the same position in the gallery and nothing in it. *)
Definition blank_item (it : GalleryItem) : GalleryItem :=
  {| title := []; description := []; image := []; url := [] |}.

(** Kinds of rehosting calls, to count attempts. *)
Definition is_primary_upload (ev : event) : bool :=
  match ev with EUpload _ => true | _ => false end.

Definition is_fallback_fetch (ev : event) : bool :=
  match ev with EHttpGetBytes _ => true | _ => false end.

Definition is_fallback_upload (ev : event) : bool :=
  match ev with EUploadStream _ => true | _ => false end.

Definition is_new_page (ev : event) : bool :=
  match ev with ENewPage _ => true | _ => false end.

(* ===================================================================== *)
(** ** Concrete runtimes, to run the script on *)
(* ===================================================================== *)

(** A world without state. The page the static extractor gets, what
    launching the browser, opening a page and configuring it do, what a
    selector finds in the browser and what the primary upload answers
    are given; the sheet has one row, the fallback upload path fails,
    everything else succeeds. *)
Definition scripted (doc : outcome Document) (launch : outcome Browser)
    (new_page : outcome Page) (set_agent : outcome unit)
    (found : jsstring -> outcome Element)
    (upload : outcome UploadResult) : Runtime :=
  {| World := unit;
     SHEET_CSV_URL := str "https://sheet.example/pub?output=csv";
     CLOUDINARY_CLOUD := str "demo";
     DIST := str "/work/dist";
     axios_get := fun _ w => (Return (str "<html></html>"), w);
     axios_get_arraybuffer := fun _ w => (Throw (Error (str "403")), w);
     csv_parse := fun _ => Return [ {[ str "Link" := str "https://a.example/x/" ]} ];
     cheerio_load := fun _ => doc;
     cloudinary_upload := fun _ w => (upload, w);
     cloudinary_upload_stream := fun _ w => (Throw (Error (str "rejected")), w);
     puppeteer_launch := fun w => (launch, w);
     browser_newPage := fun _ w => (new_page, w);
     browser_close := fun _ w => (Return tt, w);
     page_setUserAgent := fun _ _ w => (set_agent, w);
     page_goto := fun _ _ w => (Return tt, w);
     page_waitForTimeout := fun _ _ w => (Return tt, w);
     page_eval := fun _ sel w => (found sel, w);
     page_title := fun _ w => (Return [], w);
     page_x := fun _ _ w => (Return [], w);
     page_next_siblings := fun _ _ w => (Return [], w);
     page_eval_all := fun _ _ w => (Return [], w);
     page_close := fun _ w => (Return tt, w);
     fs_writeFileSync := fun _ _ w => (Return tt, w) |}.

Definition empty_document : Document :=
  {| h1_first_text := []; og_title := None; title_text := [];
     about_text := []; meta_description := None; og_description := None;
     og_image := None; image_src := None; imgs := [] |}.

(** A page with [og:title] and [og:image]. *)
Definition og_document : Document :=
  {| h1_first_text := []; og_title := Some (str "Deck");
     title_text := str "Deck | Shop"; about_text := [];
     meta_description := Some (str "Forty slides."); og_description := None;
     og_image := Some (str "//cdn.example/deck.png"); image_src := None;
     imgs := [] |}.

(** A page with a heading and an image whose description meta holds one
    space. *)
Definition blank_description_document : Document :=
  {| h1_first_text := str "Deck"; og_title := None; title_text := [];
     about_text := []; meta_description := Some (str " ");
     og_description := None;
     og_image := Some (str "https://cdn.example/deck.png");
     image_src := None; imgs := [] |}.

Definition no_element (sel : jsstring) : outcome Element :=
  Throw (Error (str "failed to find element matching selector")).

Definition hosted_ok : outcome UploadResult :=
  Return {| secure_url := Some (str "https://res.cloudinary.com/demo/image/upload/v1/products/deck.png") |}.

Definition hosted_fails : outcome UploadResult := Throw (Error (str "upload failed")).

(** Everything works and the static page carries its image. *)
Definition healthy : Runtime :=
  scripted (Return og_document) (Return 0%nat) (Return 1%nat) (Return tt)
           no_element hosted_ok.

(** Chrome cannot be launched. *)
Definition no_browser : Runtime :=
  scripted (Return og_document) (Throw (Error (str "Failed to launch the browser process")))
           (Return 1%nat) (Return tt) no_element hosted_ok.

(** The static page has no image and the browser cannot open a page. *)
Definition browser_down : Runtime :=
  scripted (Return empty_document) (Return 0%nat)
           (Throw (Error (str "Target closed"))) (Return tt) no_element hosted_ok.

(** The static page has no image and the opened page rejects the user
    agent. *)
Definition agent_rejected : Runtime :=
  scripted (Return empty_document) (Return 0%nat) (Return 1%nat)
           (Throw (Error (str "Protocol error"))) no_element hosted_ok.

(** The static page has no image, the browser finds nothing either, and
    both upload paths fail. *)
Definition nothing_found : Runtime :=
  scripted (Return empty_document) (Return 0%nat) (Return 1%nat) (Return tt)
           no_element hosted_fails.

(** The static page has an image and a description of one space. *)
Definition blank_description : Runtime :=
  scripted (Return blank_description_document) (Return 0%nat) (Return 1%nat)
           (Return tt) no_element hosted_ok.

Definition start (R : Runtime) (w : @World R) : @state R :=
  {| world := w; log := [] |}.

(** A computation only appends to the log, and what it appends
    satisfies [P]. *)
Definition emits {R : Runtime} {A} (P : event -> Prop) (c : M A) : Prop :=
  forall s r s', c s = (r, s') ->
    exists evs, log s' = log s ++ evs /\ Forall P evs.

Definition not_new_page (ev : event) : Prop := is_new_page ev = false.

Definition is_write_file (ev : event) : bool :=
  match ev with EWriteFile _ _ => true | _ => false end.

Definition not_write_file (ev : event) : Prop := is_write_file ev = false.

(** [it] is what the loop body pushes for [u]: some run of the extraction
    returned [meta], rehosting its image returned [hosted], and the item
    was made from them. *)
Definition produced {R : Runtime} (browser : Browser) (u : jsstring)
    (it : GalleryItem) : Prop :=
  exists s0 meta s1 hosted s2,
    extract browser u s0 = (Return meta, s1)
    /\ uploadToCloudinary (m_image meta) s1 = (Return hosted, s2)
    /\ it = make_item u meta hosted.

(** An operation of the runtime that returns in every world. *)
Definition returns {R : Runtime} {A} (op : World -> outcome A * World) : Prop :=
  forall w, exists a w', op w = (Return a, w').

(** The browser session and the file system do what they are asked:
    launching and closing the browser, opening, configuring and closing a
    page, and writing a file never throw. Nothing is assumed of requests,
    navigation, selectors or uploads. *)
Record dependable (R : Runtime) : Prop := {
  launch_returns : returns puppeteer_launch;
  browser_close_returns : forall b, returns (browser_close b);
  newPage_returns : forall b, returns (browser_newPage b);
  setUserAgent_returns : forall p ua, returns (page_setUserAgent p ua);
  page_close_returns : forall p, returns (page_close p);
  writeFile_returns : forall path data, returns (fs_writeFileSync path data)
}.

(** A reader of comma-separated text: fields are separated by commas and
    records by line feeds; a field that starts with a double quote runs
    to the next double quote that is not doubled, and a doubled one
    stands for one. [field] and [row] are kept in reverse. *)
Inductive csv_state : Type := FieldStart | Unquoted | Quoted | QuoteSeen.

Fixpoint csv_read (st : csv_state) (field : jsstring) (row : list jsstring)
    (rows : list (list jsstring)) (s : jsstring) : list (list jsstring) :=
  match s with
  | [] =>
      match st, row with
      | FieldStart, [] => rev rows
      | _, _ => rev (rev (rev field :: row) :: rows)
      end
  | c :: r =>
      match st with
      | Quoted =>
          if (c =? dquote)%N then csv_read QuoteSeen field row rows r
          else csv_read Quoted (c :: field) row rows r
      | _ =>
          if (c =? dquote)%N then
            match st with
            | FieldStart => csv_read Quoted [] row rows r
            | _ => csv_read Quoted (c :: field) row rows r
            end
          else if (c =? 44)%N then csv_read FieldStart [] (rev field :: row) rows r
          else if (c =? 10)%N then csv_read FieldStart [] [] (rev (rev field :: row) :: rows) r
          else csv_read Unquoted (c :: field) row rows r
      end
  end.

Definition csv_records (s : jsstring) : list (list jsstring) :=
  csv_read FieldStart [] [] [] s.

Definition csv_header_fields : list jsstring :=
  [str "Name"; str "Description"; str "Image URL"; str "Download Link"].

(* ===================================================================== *)
(** ** Further reference definitions *)
(* ===================================================================== *)

(** Every white-space unit of [s] is the space U+0020 and none follows
    another white-space unit; [prev] tells that the unit before [s] was
    white space. *)
Fixpoint singly_spaced (prev : bool) (s : jsstring) : bool :=
  match s with
  | [] => true
  | c :: r =>
      if is_space c then (c =? space)%N && negb prev && singly_spaced true r
      else singly_spaced false r
  end.

(** Neither the first nor the last unit of [s] is white space. *)
Definition no_edge_space (s : jsstring) : bool :=
  match s with
  | [] => true
  | c :: _ => negb (is_space c) && negb (is_space (List.last s c))
  end.

(** A computation that returns, returns a value that satisfies [Q]. *)
Definition ensures {R : Runtime} {A} (Q : A -> Prop) (c : M A) : Prop :=
  forall s a s', c s = (Return a, s') -> Q a.

(** What both extractors promise of a result: a description of at most
    121 units and an image that is not protocol-relative. *)
Definition well_formed_meta (meta : ExtractedMeta) : Prop :=
  (length (m_description meta) <= 121)%nat
  /\ startsWith (str "//") (m_image meta) = false.

(** The URLs requested by the static extractor and the sheet fetch, in
    the order of the requests. *)
Definition requests (evs : list event) : list jsstring :=
  omap (fun ev => match ev with EHttpGet u => Some u | _ => None end) evs.

Definition is_http_get (ev : event) : bool :=
  match ev with EHttpGet _ => true | _ => false end.

Definition not_http_get (ev : event) : Prop := is_http_get ev = false.

(** Launching or closing the browser. *)
Definition is_browser_event (ev : event) : bool :=
  match ev with ELaunch | ECloseBrowser _ => true | _ => false end.

Definition not_browser_event (ev : event) : Prop := is_browser_event ev = false.

(** The calls a page takes between its opening and its closing. *)
Definition is_page_close (ev : event) : bool :=
  match ev with EClosePage _ => true | _ => false end.

Definition not_page_close (ev : event) : Prop := is_page_close ev = false.

(** A cell that the [||] chain of [parseLinks] passes over. *)
Definition passed_over (cell : jsval) : Prop := cell = None \/ cell = Some [].

(** A runtime with other answers to navigation and to closing a page. *)
Definition with_page_calls (R : Runtime) (goto close : outcome unit) : Runtime :=
  {| World := @World R;
     SHEET_CSV_URL := @SHEET_CSV_URL R;
     CLOUDINARY_CLOUD := @CLOUDINARY_CLOUD R;
     DIST := @DIST R;
     axios_get := @axios_get R;
     axios_get_arraybuffer := @axios_get_arraybuffer R;
     csv_parse := @csv_parse R;
     cheerio_load := @cheerio_load R;
     cloudinary_upload := @cloudinary_upload R;
     cloudinary_upload_stream := @cloudinary_upload_stream R;
     puppeteer_launch := @puppeteer_launch R;
     browser_newPage := @browser_newPage R;
     browser_close := @browser_close R;
     page_setUserAgent := @page_setUserAgent R;
     page_goto := fun _ _ w => (goto, w);
     page_waitForTimeout := @page_waitForTimeout R;
     page_eval := @page_eval R;
     page_title := @page_title R;
     page_x := @page_x R;
     page_next_siblings := @page_next_siblings R;
     page_eval_all := @page_eval_all R;
     page_close := fun _ w => (close, w);
     fs_writeFileSync := @fs_writeFileSync R |}.

(** A runtime with another file system. *)
Definition with_file_system (R : Runtime)
    (write : jsstring -> jsstring -> outcome unit) : Runtime :=
  {| World := @World R;
     SHEET_CSV_URL := @SHEET_CSV_URL R;
     CLOUDINARY_CLOUD := @CLOUDINARY_CLOUD R;
     DIST := @DIST R;
     axios_get := @axios_get R;
     axios_get_arraybuffer := @axios_get_arraybuffer R;
     csv_parse := @csv_parse R;
     cheerio_load := @cheerio_load R;
     cloudinary_upload := @cloudinary_upload R;
     cloudinary_upload_stream := @cloudinary_upload_stream R;
     puppeteer_launch := @puppeteer_launch R;
     browser_newPage := @browser_newPage R;
     browser_close := @browser_close R;
     page_setUserAgent := @page_setUserAgent R;
     page_goto := @page_goto R;
     page_waitForTimeout := @page_waitForTimeout R;
     page_eval := @page_eval R;
     page_title := @page_title R;
     page_x := @page_x R;
     page_next_siblings := @page_next_siblings R;
     page_eval_all := @page_eval_all R;
     page_close := @page_close R;
     fs_writeFileSync := fun path data w => (write path data, w) |}.

(** A runtime with another sheet. *)
Definition with_sheet (R : Runtime)
    (rows : outcome (list (gmap jsstring jsstring))) : Runtime :=
  {| World := @World R;
     SHEET_CSV_URL := @SHEET_CSV_URL R;
     CLOUDINARY_CLOUD := @CLOUDINARY_CLOUD R;
     DIST := @DIST R;
     axios_get := @axios_get R;
     axios_get_arraybuffer := @axios_get_arraybuffer R;
     csv_parse := fun _ => rows;
     cheerio_load := @cheerio_load R;
     cloudinary_upload := @cloudinary_upload R;
     cloudinary_upload_stream := @cloudinary_upload_stream R;
     puppeteer_launch := @puppeteer_launch R;
     browser_newPage := @browser_newPage R;
     browser_close := @browser_close R;
     page_setUserAgent := @page_setUserAgent R;
     page_goto := @page_goto R;
     page_waitForTimeout := @page_waitForTimeout R;
     page_eval := @page_eval R;
     page_title := @page_title R;
     page_x := @page_x R;
     page_next_siblings := @page_next_siblings R;
     page_eval_all := @page_eval_all R;
     page_close := @page_close R;
     fs_writeFileSync := @fs_writeFileSync R |}.

(** The sheet has a row, and its only column is none of the four. *)
Definition wrong_column : Runtime :=
  with_sheet healthy (Return [ {[ str "Href" := str "https://a.example/x/" ]} ]).

(** Navigation times out. *)
Definition navigation_fails : Runtime :=
  with_page_calls nothing_found
    (Throw (Error (str "Navigation timeout of 60000 ms exceeded"))) (Return tt).

(** The page cannot be closed. *)
Definition close_fails : Runtime :=
  with_page_calls nothing_found (Return tt)
    (Throw (Error (str "Protocol error: Target.closeTarget"))).

(** The disk takes [data.json] and nothing after it. *)
Definition disk_fills : Runtime :=
  with_file_system healthy
    (fun path _ => if startsWith (str "/work/dist/data.json") path
                   then Return tt else Throw (Error (str "ENOSPC"))).

(** [seg] is what the loop body logs for the link [u] from some state:
    the static extractor returned [meta] there, and [seg] holds the
    opening of a page, once, exactly when the image of [meta] is empty. *)
Definition link_events {R : Runtime} (browser : Browser) (u : jsstring)
    (seg : list event) : Prop :=
  exists s meta s2,
    log (snd (process_link browser u s)) = log s ++ seg
    /\ scrapeWithCheerio u (snd (console_log (str "Parsing: " ++ u) s))
       = (Return meta, s2)
    /\ (In (ENewPage browser) seg <-> m_image meta = [])
    /\ length (List.filter is_new_page seg)
       = (if truthy_str (m_image meta) then 0 else 1)%nat.

(* ===================================================================== *)
(** ** Reading a page back *)
(* ===================================================================== *)

(** What a reader of markup sees: the text between tags, the parts of a
    tag outside attribute values, and the attribute values between
    double quotes. Text and values are given with the four entities
    read back. *)
Inductive html_token :=
| HText (t : jsstring)
| HMarkup (raw : jsstring)
| HValue (v : jsstring).

Inductive html_mode := InText | InTag | InValue.

(** One unit of the page: [<] opens a tag, [>] closes it, a double quote
    inside a tag opens an attribute value and the next one closes it.
    [cur] holds the units of the current piece, last first; [out] the
    pieces read so far, last first. *)
Definition html_step (st : html_mode * jsstring * list html_token) (c : N)
  : html_mode * jsstring * list html_token :=
  let '(m, cur, out) := st in
  match m with
  | InText =>
      if (c =? 60)%N then (InTag, [], HText (html_unesc (List.rev cur)) :: out)
      else (InText, c :: cur, out)
  | InTag =>
      if (c =? 34)%N then (InValue, [], HMarkup (List.rev cur) :: out)
      else if (c =? 62)%N then (InText, [], HMarkup (List.rev cur) :: out)
      else (InTag, c :: cur, out)
  | InValue =>
      if (c =? 34)%N then (InTag, [], HValue (html_unesc (List.rev cur)) :: out)
      else (InValue, c :: cur, out)
  end.

Definition html_read_from (st : html_mode * jsstring * list html_token)
    (s : jsstring) : html_mode * jsstring * list html_token :=
  fold_left html_step s st.

(** The pieces of a page, in order; none when the page ends inside a
    tag. *)
Definition html_read (s : jsstring) : option (list html_token) :=
  match html_read_from (InText, [], []) s with
  | (InText, cur, out) =>
      Some (List.rev (HText (html_unesc (List.rev cur)) :: out))
  | _ => None
  end.

(** The pieces of an opening tag with one attribute. *)
Definition tag_with (name attr value : string) : list html_token :=
  [HMarkup (str name ++ str " " ++ str attr ++ str "="); HValue (str value);
   HMarkup []].

(** What a reader is to see of one card: the fields of the item as they
    are, the image and the link as attribute values, the title and the
    description as text. *)
Definition card_tokens (it : GalleryItem) : list html_token :=
  tag_with "article" "class" "card"
  ++ [HText (nl ++ str "      ")]
  ++ tag_with "div" "class" "cover"
  ++ [HText [];
      HMarkup (str "img src="); HValue (image it);
      HMarkup (str " alt="); HValue (title it ++ str " cover");
      HMarkup (str " /");
      HText []; HMarkup (str "/div");
      HText (nl ++ str "      ")]
  ++ tag_with "div" "class" "content"
  ++ [HText (nl ++ str "        ")]
  ++ tag_with "div" "class" "title"
  ++ [HText (title it); HMarkup (str "/div");
      HText (nl ++ str "        ")]
  ++ tag_with "div" "class" "desc"
  ++ [HText (description it); HMarkup (str "/div");
      HText (nl ++ str "        ")]
  ++ tag_with "div" "class" "actions"
  ++ [HText [];
      HMarkup (str "a class="); HValue (str "btn");
      HMarkup (str " href="); HValue (url it);
      HMarkup (str " target="); HValue (str "_blank");
      HMarkup (str " rel="); HValue (str "noopener");
      HMarkup [];
      HText (str "Download for Free"); HMarkup (str "/a");
      HText []; HMarkup (str "/div");
      HText (nl ++ str "      "); HMarkup (str "/div");
      HText (nl ++ str "    "); HMarkup (str "/article")].

(** The white space between two cards. *)
Definition card_gap : jsstring :=
  nl ++ str "  " ++ nl ++ nl ++ str "    ".

Fixpoint more_cards (items : list GalleryItem) : list html_token :=
  match items with
  | [] => []
  | it :: rest => HText card_gap :: card_tokens it ++ more_cards rest
  end.

(** The cards of the items, in order, with the white space around them. *)
Definition gallery_tokens (items : list GalleryItem) : list html_token :=
  match items with
  | [] => [HText []]
  | it :: rest =>
      HText (nl ++ str "    ") :: card_tokens it ++ more_cards rest
      ++ [HText (nl ++ str "  ")]
  end.

(** The fixed parts of the page, before and after the cards. *)
Definition head_tokens : list html_token :=
  [HText []; HMarkup (str "!DOCTYPE html"); HText []]
  ++ tag_with "html" "lang" "en"
  ++ [HText []; HMarkup (str "head");
      HText []; HMarkup (str "meta charset="); HValue (str "utf-8");
      HMarkup (str "/");
      HText []; HMarkup (str "meta name="); HValue (str "viewport");
      HMarkup (str " content=");
      HValue (str "width=device-width, initial-scale=1");
      HMarkup (str "/");
      HText []; HMarkup (str "title");
      HText (str "Free Digital Products"); HMarkup (str "/title");
      HText []; HMarkup (str "style");
      HText css; HMarkup (str "/style");
      HText []; HMarkup (str "/head");
      HText []; HMarkup (str "body");
      HText []]
  ++ tag_with "div" "class" "wrap"
  ++ [HText []; HMarkup (str "h1");
      HText (str "Free Digital Products"); HMarkup (str "/h1");
      HText []]
  ++ tag_with "div" "class" "subtitle"
  ++ [HText (str "Curated resources for creators, designers, and marketers. Download and use them in your next project.");
      HMarkup (str "/div");
      HText []; HMarkup (str "hr/");
      HText []]
  ++ tag_with "div" "class" "grid".

Definition tail_tokens : list html_token :=
  [HMarkup (str "/div");
   HText []; HMarkup (str "div class="); HValue (str "footer");
   HMarkup (str " style=");
   HValue (str "margin-top:36px;font-size:13px;color:#666;");
   HMarkup [];
   HText (str "Images hosted on Cloudinary " ++ [bullet]
          ++ str " Auto-built from Google Sheets.");
   HMarkup (str "/div");
   HText []; HMarkup (str "/div");
   HText []; HMarkup (str "/body");
   HText []; HMarkup (str "/html");
   HText []].

Definition page_tokens (items : list GalleryItem) : list html_token :=
  head_tokens ++ gallery_tokens items ++ tail_tokens.

(* ===================================================================== *)
(** ** Reading the dump back *)
(* ===================================================================== *)

(** A reader of JSON for what the dump is: an array of objects whose
    members are strings. First the tokens, then the records. *)
Inductive json_token :=
| JOpenArr | JCloseArr | JOpenObj | JCloseObj | JComma | JColon
| JStr (s : jsstring).

(** Outside a string, inside one, after a backslash, after [k]
    hexadecimal digits of value [acc], or after a unit that is no
    JSON. *)
Inductive json_mode :=
| JOut | JIn | JEsc | JHex (k : nat) (acc : N) | JBad.

Definition hex_value (c : N) : option N :=
  if ((48 <=? c) && (c <=? 57))%N then Some (c - 48)%N
  else if ((97 <=? c) && (c <=? 102))%N then Some (c - 87)%N
  else if ((65 <=? c) && (c <=? 70))%N then Some (c - 55)%N
  else None.

(** The unit a short escape stands for. *)
Definition json_unescape (c : N) : option N :=
  if (c =? 34)%N then Some 34%N
  else if (c =? 92)%N then Some 92%N
  else if (c =? 47)%N then Some 47%N
  else if (c =? 98)%N then Some 8%N
  else if (c =? 102)%N then Some 12%N
  else if (c =? 110)%N then Some 10%N
  else if (c =? 114)%N then Some 13%N
  else if (c =? 116)%N then Some 9%N
  else None.

Definition json_punct (c : N) : option json_token :=
  if (c =? 91)%N then Some JOpenArr
  else if (c =? 93)%N then Some JCloseArr
  else if (c =? 123)%N then Some JOpenObj
  else if (c =? 125)%N then Some JCloseObj
  else if (c =? 44)%N then Some JComma
  else if (c =? 58)%N then Some JColon
  else None.

Definition is_json_space (c : N) : bool :=
  ((c =? 32) || (c =? 10) || (c =? 13) || (c =? 9))%N.

(** One unit of the text. [cur] holds the units of the current string,
    last first; [out] the tokens read so far, last first. *)
Definition json_step (st : json_mode * jsstring * list json_token) (c : N)
  : json_mode * jsstring * list json_token :=
  let '(m, cur, out) := st in
  match m with
  | JOut =>
      if is_json_space c then (JOut, [], out)
      else if (c =? 34)%N then (JIn, [], out)
      else match json_punct c with
           | Some t => (JOut, [], t :: out)
           | None => (JBad, [], out)
           end
  | JIn =>
      if (c =? 34)%N then (JOut, [], JStr (List.rev cur) :: out)
      else if (c =? 92)%N then (JEsc, cur, out)
      else if (c <? 32)%N then (JBad, [], out)
      else (JIn, c :: cur, out)
  | JEsc =>
      match json_unescape c with
      | Some d => (JIn, d :: cur, out)
      | None => if (c =? 117)%N then (JHex 0 0, cur, out) else (JBad, [], out)
      end
  | JHex k acc =>
      match hex_value c with
      | Some d =>
          if (k =? 3)%nat then (JIn, (acc * 16 + d)%N :: cur, out)
          else (JHex (S k) (acc * 16 + d)%N, cur, out)
      | None => (JBad, [], out)
      end
  | JBad => (JBad, [], out)
  end.

Definition json_lex_from (st : json_mode * jsstring * list json_token)
    (s : jsstring) : json_mode * jsstring * list json_token :=
  fold_left json_step s st.

Definition json_lex (s : jsstring) : option (list json_token) :=
  match json_lex_from (JOut, [], []) s with
  | (JOut, _, out) => Some (List.rev out)
  | _ => None
  end.

(** Where the reader of records is: before the array, after its [[],
    after the [{] of an object, after a key, after its colon, after a
    value, after a comma in an object, after the [}] of an object,
    after a comma in the array, after the []], or lost. *)
Inductive json_phase :=
| PStart | PArr | PObj | PKey (k : jsstring) | PColon (k : jsstring)
| PVal | PNext | PEnd | PMore | PDone | PBad.

(** One token. [mem] holds the members of the current object, last
    first; [recs] the objects read so far, last first. *)
Definition json_group_step
    (st : json_phase * list (jsstring * jsstring)
          * list (list (jsstring * jsstring)))
    (t : json_token) :=
  let '(p, mem, recs) := st in
  match p, t with
  | PStart, JOpenArr => (PArr, [], recs)
  | PArr, JCloseArr => (PDone, [], recs)
  | PArr, JOpenObj => (PObj, [], recs)
  | PMore, JOpenObj => (PObj, [], recs)
  | PObj, JCloseObj => (PEnd, [], [] :: recs)
  | PObj, JStr k => (PKey k, mem, recs)
  | PNext, JStr k => (PKey k, mem, recs)
  | PKey k, JColon => (PColon k, mem, recs)
  | PColon k, JStr v => (PVal, (k, v) :: mem, recs)
  | PVal, JComma => (PNext, mem, recs)
  | PVal, JCloseObj => (PEnd, [], List.rev mem :: recs)
  | PEnd, JComma => (PMore, [], recs)
  | PEnd, JCloseArr => (PDone, [], recs)
  | _, _ => (PBad, [], recs)
  end.

Definition json_group (toks : list json_token)
  : option (list (list (jsstring * jsstring))) :=
  match fold_left json_group_step toks (PStart, [], []) with
  | (PDone, _, recs) => Some (List.rev recs)
  | _ => None
  end.

(** The records of a dump: for each object, its members in order, each a
    key and a value. *)
Definition json_records (s : jsstring)
  : option (list (list (jsstring * jsstring))) :=
  match json_lex s with
  | Some toks => json_group toks
  | None => None
  end.

(** The members the dump is to hold for an item. *)
Definition json_fields (it : GalleryItem) : list (jsstring * jsstring) :=
  [(str "title", title it); (str "description", description it);
   (str "image", image it); (str "url", url it)].

(** The tokens the dump is to give: for an item, an object with the four
    members; for the list, the objects between brackets, with commas
    between them. *)
Definition object_tokens (it : GalleryItem) : list json_token :=
  [JOpenObj; JStr (str "title"); JColon; JStr (title it); JComma;
   JStr (str "description"); JColon; JStr (description it); JComma;
   JStr (str "image"); JColon; JStr (image it); JComma;
   JStr (str "url"); JColon; JStr (url it); JCloseObj].

Fixpoint more_objects (items : list GalleryItem) : list json_token :=
  match items with
  | [] => []
  | it :: rest => JComma :: object_tokens it ++ more_objects rest
  end.

Definition dump_tokens (items : list GalleryItem) : list json_token :=
  match items with
  | [] => [JOpenArr; JCloseArr]
  | it :: rest =>
      JOpenArr :: object_tokens it ++ more_objects rest ++ [JCloseArr]
  end.

(* ===================================================================== *)
(** ** Properties of the string operations *)
(* ===================================================================== *)

Section StringFacts.

Lemma drop_while_length (p : N -> bool) (s : jsstring) :
  (length (drop_while p s) <= length s)%nat.
Proof.
  induction s as [|c r IH]; simpl; [lia|].
  destruct (p c); simpl; lia.
Qed.

Lemma drop_while_end_length (p : N -> bool) (s : jsstring) :
  (length (drop_while_end p s) <= length s)%nat.
Proof.
  unfold drop_while_end. rewrite length_rev.
  etransitivity; [apply drop_while_length|]. now rewrite length_rev.
Qed.

Lemma trim_length (s : jsstring) : (length (trim s) <= length s)%nat.
Proof.
  unfold trim. etransitivity; [apply drop_while_end_length|].
  apply drop_while_length.
Qed.

Lemma collapse_go_length (b : bool) (s : jsstring) :
  (length (collapse_go b s) <= length s)%nat.
Proof.
  revert b. induction s as [|c r IH]; intros b; cbn [collapse_go length]; [lia|].
  pose proof (IH true). pose proof (IH false).
  destruct (is_space c); [destruct b|]; cbn [length]; lia.
Qed.

Lemma collapse_ws_length (s : jsstring) :
  (length (collapse_ws s) <= length s)%nat.
Proof. apply collapse_go_length. Qed.

Lemma slice_length_le (s : jsstring) (b e : Z) :
  (length (slice s b e) <= length s)%nat.
Proof.
  unfold slice. rewrite length_take, length_drop. lia.
Qed.

Lemma slice_prefix_length (s : jsstring) (e : Z) :
  0 <= e -> Z.of_nat (length (slice s 0 e)) <= e.
Proof.
  intros He. unfold slice, clamp_index.
  rewrite length_take. change (0 <? 0) with false. cbv iota.
  destruct (e <? 0) eqn:E; [apply Z.ltb_lt in E; lia|].
  lia.
Qed.

End StringFacts.

(* ===================================================================== *)
(** ** Text normaliser: results *)
(* ===================================================================== *)

(** The result is never longer than one unit past the cut. *)
Lemma shorten_length_max (text : jsval) (limit : Z) :
  Z.of_nat (length (shorten text limit)) <= Z.max 0 limit + 1.
Proof.
  unfold shorten.
  destruct (truthy text); simpl negb; cbv iota; [|simpl; lia].
  set (clean := trim (collapse_ws (String_of text))).
  destruct (Z.of_nat (length clean) <=? limit) eqn:E.
  - apply Z.leb_le in E. lia.
  - rewrite length_app. simpl (length [ellipsis]).
    unfold strip_trailing_punct.
    pose proof (slice_prefix_length clean (Z.max 0 (limit - 1)) ltac:(lia)) as H0.
    set (slice0 := slice clean 0 (Z.max 0 (limit - 1))) in *.
    set (slice1 := if 60 <? lastIndexOf space slice0
                   then slice slice0 0 (lastIndexOf space slice0)
                   else slice0).
    assert (Hs : (length slice1 <= length slice0)%nat).
    { subst slice1. destruct (60 <? _); [apply slice_length_le|lia]. }
    pose proof (drop_while_end_length is_trailing_punct slice1) as Hd.
    lia.
Qed.

(** C3, as the code has it. For a limit [0 <= n] the result has at most
    [n + 1] units; an input of at most [n] units comes back normalised
    (white-space runs collapsed to one space, edges trimmed), which is the
    input itself only when it was already normalised; an empty or absent
    input gives the empty string. *)
Theorem shorten_contract (n : Z) :
  (forall text : jsval, 0 <= n -> Z.of_nat (length (shorten text n)) <= n + 1)
  /\ (forall s : jsstring, Z.of_nat (length s) <= n ->
        shorten (Some s) n = trim (collapse_ws s))
  /\ shorten (Some []) n = []
  /\ shorten None n = [].
Proof.
  split; [|split; [|split; reflexivity]].
  - intros text Hn. pose proof (shorten_length_max text n). lia.
  - intros s Hlen. unfold shorten.
    destruct s as [|c r]; [reflexivity|]. simpl truthy. simpl negb. cbv iota.
    simpl String_of.
    pose proof (trim_length (collapse_ws (c :: r))) as H1.
    pose proof (collapse_ws_length (c :: r)) as H2.
    destruct (Z.of_nat (length (trim (collapse_ws (c :: r)))) <=? n) eqn:E;
      [reflexivity|].
    apply Z.leb_gt in E. lia.
Qed.

Lemma shorten_contract_witness :
  Z.of_nat (length (shorten (Some (str "a  b, c")) 3)) <= 3 + 1
  /\ shorten (Some (str "a  b")) 4 = trim (collapse_ws (str "a  b")).
Proof.
  destruct (shorten_contract 3) as (Hlen & _).
  destruct (shorten_contract 4) as (_ & Hsame & _).
  split.
  - apply Hlen. lia.
  - apply Hsame. simpl. lia.
Defined.

(** C3 as worded fails twice: a short input with a white-space run does
    not come back unchanged, and a negative limit gives the one-unit
    ellipsis, longer than [n + 1]. *)
Lemma shorten_not_unchanged :
  (Z.of_nat (length (str "a  b")) <= 120
   /\ shorten (Some (str "a  b")) 120 <> str "a  b")
  /\ ~ (Z.of_nat (length (shorten (Some (str "a")) (-1))) <= -1 + 1).
Proof.
  split; [split|].
  - simpl. lia.
  - vm_compute. discriminate.
  - vm_compute. intros H. apply H. reflexivity.
Qed.

(* ===================================================================== *)
(** ** Link collection: results *)
(* ===================================================================== *)

Section LinkCollection.

Lemma filter_twice {A} (f g : A -> bool) (l : list A) :
  List.filter f (List.filter g l) = List.filter (fun x => g x && f x) l.
Proof.
  induction l as [|x l IH]; [reflexivity|].
  cbn [List.filter]. destruct (g x); cbn [andb List.filter]; [|assumption].
  destruct (f x); now rewrite IH.
Qed.

Lemma Set_add_fold (l acc : list jsstring) :
  fold_left Set_add l acc
  = acc ++ List.filter (fun y => negb (bool_decide (y ∈ acc))) (first_seen l).
Proof.
  revert acc. induction l as [|x l IH]; intros acc.
  - simpl. now rewrite app_nil_r.
  - cbn [fold_left first_seen List.filter]. rewrite IH. unfold Set_add.
    destruct (bool_decide (x ∈ acc)) eqn:E; cbn [negb].
    + apply bool_decide_eq_true in E. f_equal.
      rewrite filter_twice. apply List.filter_ext_in. intros y _.
      repeat case_bool_decide; cbn [negb andb]; try reflexivity.
      subst. contradiction.
    + apply bool_decide_eq_false in E.
      rewrite <- app_assoc. cbn [app]. do 2 f_equal.
      rewrite filter_twice. apply List.filter_ext_in. intros y _.
      rewrite (bool_decide_ext (y ∈ acc ++ [x]) (y ∈ acc \/ y = x))
        by (rewrite elem_of_app, list_elem_of_singleton; reflexivity).
      repeat case_bool_decide; cbn [negb andb]; try reflexivity; tauto.
Qed.

Lemma Array_from_Set_first_seen (l : list jsstring) :
  Array_from_Set l = first_seen l.
Proof.
  unfold Array_from_Set. rewrite Set_add_fold. cbn [app].
  rewrite <- (List.filter_ext_in (fun _ => true)).
  - induction (first_seen l) as [|y r IH]; [reflexivity|].
    cbn [List.filter]. now rewrite IH.
  - intros y _. symmetry. rewrite bool_decide_eq_false_2; [reflexivity|].
    apply not_elem_of_nil.
Qed.

Lemma first_seen_In (l : list jsstring) (x : jsstring) :
  In x (first_seen l) <-> In x l.
Proof.
  induction l as [|y l IH]; [reflexivity|].
  cbn [first_seen In]. rewrite List.filter_In, IH.
  destruct (decide (x = y)) as [->|Hne]; [tauto|].
  rewrite (bool_decide_eq_false_2 (x = y)) by assumption. cbn [negb].
  split; [intros [H|[H _]]|intros [H|H]]; auto.
Qed.

Lemma first_seen_NoDup (l : list jsstring) : List.NoDup (first_seen l).
Proof.
  induction l as [|y l IH]; cbn [first_seen]; constructor.
  - rewrite List.filter_In. intros [_ H].
    rewrite (bool_decide_eq_true_2 (y = y)) in H by reflexivity. discriminate.
  - now apply List.NoDup_filter.
Qed.

End LinkCollection.

(** C5, as the code has it. A row, whatever columns it has, gives the
    trimmed value of the first non-empty one of its columns [Link],
    [link], [URL], [url] (these four spellings, no others, in this
    order: a missing or empty cell is passed over, and a later column
    counts only when all the earlier ones were passed over), or the empty
    string when all four are passed over; empty values are dropped and
    duplicates removed by string equality, first occurrence kept, so that
    links [A; A; B] give [A; B]. *)
Theorem parseLinks_spec :
  (forall k v, In k [str "Link"; str "link"; str "URL"; str "url"] ->
     link_of_row {[ k := v ]} = trim v)
  /\ (forall r : gmap jsstring jsstring,
        r !! str "Link" = None -> r !! str "link" = None ->
        r !! str "URL" = None -> r !! str "url" = None ->
        link_of_row r = [])
  /\ (forall rows,
        links_of_rows rows
        = first_seen (List.filter truthy_str (List.map link_of_row rows)))
  /\ (forall rows,
        List.NoDup (links_of_rows rows)
        /\ forall x, In x (links_of_rows rows)
                     <-> x <> [] /\ exists r, In r rows /\ link_of_row r = x)
  /\ (forall A B : jsstring, A <> B -> Array_from_Set [A; A; B] = [A; B])
  /\ (forall (r : gmap jsstring jsstring) (v : jsstring), v <> [] ->
        (r !! str "Link" = Some v -> link_of_row r = trim v)
        /\ (passed_over (r !! str "Link") -> r !! str "link" = Some v ->
            link_of_row r = trim v)
        /\ (passed_over (r !! str "Link") -> passed_over (r !! str "link") ->
            r !! str "URL" = Some v -> link_of_row r = trim v)
        /\ (passed_over (r !! str "Link") -> passed_over (r !! str "link") ->
            passed_over (r !! str "URL") -> r !! str "url" = Some v ->
            link_of_row r = trim v))
  /\ (forall r : gmap jsstring jsstring,
        passed_over (r !! str "Link") -> passed_over (r !! str "link") ->
        passed_over (r !! str "URL") -> passed_over (r !! str "url") ->
        link_of_row r = []).
Proof.
  split; [|split; [|split; [|split; [|split; [|split]]]]].
  - intros k v Hk. unfold link_of_row.
    assert (Hv : forall d, trim (or_str (Some v) d) = trim v \/ v = []).
    { intros d. destruct v; [now right|now left]. }
    cbn [In] in Hk.
    destruct Hk as [<-|[<-|[<-|[<-|[]]]]];
      rewrite ?lookup_singleton_eq;
      repeat (rewrite lookup_singleton_ne by (vm_compute; discriminate));
      destruct v; reflexivity.
  - intros r H1 H2 H3 H4. unfold link_of_row. now rewrite H1, H2, H3, H4.
  - intros rows. unfold links_of_rows. apply Array_from_Set_first_seen.
  - intros rows. unfold links_of_rows. rewrite Array_from_Set_first_seen.
    split; [apply first_seen_NoDup|].
    intros x. rewrite first_seen_In, List.filter_In, List.in_map_iff.
    split.
    + intros [(r & Hr & Hin) Ht]. split; [|eauto].
      intros ->. discriminate.
    + intros [Hx (r & Hin & Hr)]. split; [eauto|].
      destruct x; [congruence|reflexivity].
  - intros A B Hne. rewrite Array_from_Set_first_seen. cbn [first_seen List.filter].
    repeat (case_bool_decide; cbn [negb List.filter]); congruence.
  - intros r v Hv. unfold link_of_row, passed_over.
    destruct v as [|c v]; [congruence|].
    repeat split.
    + intros ->. reflexivity.
    + intros [-> | ->] ->; reflexivity.
    + intros [-> | ->] [-> | ->] ->; reflexivity.
    + intros [-> | ->] [-> | ->] [-> | ->] ->; reflexivity.
  - intros r. unfold link_of_row, passed_over.
    intros [-> | ->] [-> | ->] [-> | ->] [-> | ->]; reflexivity.
Qed.

Lemma parseLinks_spec_witness :
  link_of_row {[ str "URL" := str " https://a.example/x " ]} = str "https://a.example/x"
  /\ Array_from_Set [str "A"; str "A"; str "B"] = [str "A"; str "B"]
  /\ link_of_row (<[ str "url" := str "https://b.example/" ]>
                    (<[ str "Link" := [] ]>
                       {[ str "link" := str " https://a.example/ " ]}))
     = str "https://a.example/".
Proof.
  destruct parseLinks_spec as (Hcol & _ & _ & _ & Hdup & Horder & _).
  split; [|split].
  - rewrite (Hcol (str "URL") (str " https://a.example/x ")); [reflexivity|].
    simpl. auto.
  - apply Hdup. discriminate.
  - destruct (Horder (<[ str "url" := str "https://b.example/" ]>
                        (<[ str "Link" := [] ]>
                           {[ str "link" := str " https://a.example/ " ]}))
                     (str " https://a.example/ ") ltac:(discriminate))
      as (_ & H & _).
    rewrite H; [reflexivity|right; reflexivity|reflexivity].
Defined.

(** C5 as worded fails: [LINK] is [Link] up to case, and a sheet whose
    column is spelled so yields no link at all. *)
Lemma parseLinks_case_sensitive :
  eq_ignore_case (str "LINK") (str "Link") = true
  /\ links_of_rows [ {[ str "LINK" := str "https://a.example/x" ]} ] = []
  /\ links_of_rows [ {[ str "Link" := str "https://a.example/x" ]} ]
     = [str "https://a.example/x"].
Proof.
  split; [|split]; vm_compute; reflexivity.
Qed.

(* ===================================================================== *)
(** ** HTML template: results *)
(* ===================================================================== *)

Section HtmlEscaping.

Lemma replace_class_app (p : N -> bool) (by_ a b : jsstring) :
  replace_class p by_ (a ++ b) = replace_class p by_ a ++ replace_class p by_ b.
Proof. unfold replace_class. apply flat_map_app. Qed.

Lemma str_or_empty (s : jsstring) : str_or s [] = s.
Proof. now destruct s. Qed.

(** The four replacements in sequence are one pass: no replacement text
    holds a unit that a later replacement looks for. *)
Lemma html_esc_cons (c : N) (s : jsstring) :
  html_esc (c :: s) = esc_unit c ++ html_esc s.
Proof.
  unfold html_esc. rewrite !str_or_empty. unfold replace_all.
  change (replace_class (fun x => (x =? 38)%N) (str "&amp;") (c :: s))
    with ((if (c =? 38)%N then str "&amp;" else [c])
          ++ replace_class (fun x => (x =? 38)%N) (str "&amp;") s).
  rewrite !replace_class_app. f_equal.
  unfold esc_unit.
  destruct (N.eqb_spec c 38) as [->|H38]; [reflexivity|].
  unfold replace_class. cbn [flat_map app].
  destruct (N.eqb_spec c 60) as [->|H60]; [reflexivity|].
  cbn [flat_map app].
  destruct (N.eqb_spec c 62) as [->|H62]; [reflexivity|].
  cbn [flat_map app].
  destruct (N.eqb_spec c 34) as [->|H34]; reflexivity.
Qed.

Lemma html_esc_nil : html_esc [] = [].
Proof. reflexivity. Qed.

Lemma esc_unit_clean (c d : N) :
  is_markup_delimiter d = true -> ~ In d (esc_unit c).
Proof.
  unfold is_markup_delimiter, esc_unit. intros Hd.
  destruct (N.eqb_spec c 38); [|destruct (N.eqb_spec c 60);
    [|destruct (N.eqb_spec c 62); [|destruct (N.eqb_spec c 34)]]];
  cbn [str In N_of_ascii]; intros Hin;
  repeat match goal with
         | H : _ \/ _ |- _ => destruct H
         | H : False |- _ => destruct H
         end; subst; try discriminate.
  destruct (N.eqb_spec d 60); [congruence|].
  destruct (N.eqb_spec d 62); [congruence|].
  destruct (N.eqb_spec d 34); [congruence|discriminate].
Qed.

Lemma html_esc_clean (s : jsstring) (d : N) :
  is_markup_delimiter d = true -> ~ In d (html_esc s).
Proof.
  intros Hd. induction s as [|c s IH]; [intros []|].
  rewrite html_esc_cons, in_app_iff. intros [H|H]; [|auto].
  now apply (esc_unit_clean c d).
Qed.

Lemma startsWith_head_ne (a c : N) (p r : jsstring) :
  a <> c -> startsWith (a :: p) (c :: r) = false.
Proof.
  intros H. cbn [startsWith]. apply N.eqb_neq in H. now rewrite H.
Qed.

Lemma html_unesc_unit (c : N) (rest : jsstring) :
  html_unesc_go 0 (esc_unit c ++ rest) = c :: html_unesc_go 0 rest.
Proof.
  unfold esc_unit.
  destruct (N.eqb_spec c 38) as [->|H38]; [reflexivity|].
  destruct (N.eqb_spec c 60) as [->|H60]; [reflexivity|].
  destruct (N.eqb_spec c 62) as [->|H62]; [reflexivity|].
  destruct (N.eqb_spec c 34) as [->|H34]; [reflexivity|].
  cbn [app html_unesc_go].
  change (str "&amp;") with (38%N :: str "amp;").
  change (str "&lt;") with (38%N :: str "lt;").
  change (str "&gt;") with (38%N :: str "gt;").
  change (str "&quot;") with (38%N :: str "quot;").
  rewrite !startsWith_head_ne by congruence. reflexivity.
Qed.

Lemma html_unesc_esc (s : jsstring) : html_unesc (html_esc s) = s.
Proof.
  unfold html_unesc. induction s as [|c s IH]; [reflexivity|].
  rewrite html_esc_cons, html_unesc_unit. now rewrite IH.
Qed.

Lemma occurrences_app (c : N) (a b : jsstring) :
  occurrences c (a ++ b) = (occurrences c a + occurrences c b)%nat.
Proof. apply count_occ_app. Qed.

Lemma occurrences_quoted (c : N) (a : jsstring) :
  occurrences c (quoted a) = (occurrences c [dquote] + occurrences c a * 1
                              + occurrences c [dquote])%nat.
Proof.
  unfold quoted. change (dquote :: a ++ [dquote]) with ([dquote] ++ a ++ [dquote]).
  rewrite !occurrences_app. lia.
Qed.

Lemma occurrences_html_esc (c : N) (s : jsstring) :
  is_markup_delimiter c = true -> occurrences c (html_esc s) = 0%nat.
Proof.
  intros Hc. apply count_occ_not_In. now apply html_esc_clean.
Qed.

Lemma occurrences_card (c : N) (it : GalleryItem) :
  is_markup_delimiter c = true ->
  occurrences c (card it) = occurrences c (card (blank_item it)).
Proof.
  intros Hc. unfold card, blank_item. cbn [title description image url].
  rewrite !occurrences_app, !occurrences_quoted, !occurrences_app.
  rewrite !occurrences_html_esc by assumption.
  reflexivity.
Qed.

Lemma join_cons2 (sep x y : jsstring) (r : list jsstring) :
  join sep (x :: y :: r) = x ++ sep ++ join sep (y :: r).
Proof. reflexivity. Qed.

Lemma occurrences_join (c : N) (sep : jsstring) (f g : GalleryItem -> jsstring)
    (items : list GalleryItem) :
  (forall it, occurrences c (f it) = occurrences c (g (blank_item it))) ->
  occurrences c (join sep (List.map f items))
  = occurrences c (join sep (List.map g (List.map blank_item items))).
Proof.
  intros H. induction items as [|x [|y r] IH]; [reflexivity|apply H|].
  cbn [List.map] in *. rewrite !join_cons2, !occurrences_app, IH, H.
  reflexivity.
Qed.

End HtmlEscaping.

Section ReadingThePage.

Lemma html_read_from_app st (a b : jsstring) :
  html_read_from st (a ++ b) = html_read_from (html_read_from st a) b.
Proof. apply fold_left_app. Qed.

(** Reading only adds pieces in front of those read before. *)
Lemma html_read_frame (x : jsstring) (m : html_mode) (cur : jsstring)
    (out : list html_token) :
  html_read_from (m, cur, out) x
  = (let '(m', cur', out') := html_read_from (m, cur, []) x in
     (m', cur', out' ++ out)).
Proof.
  revert m cur out.
  assert (G : forall x m cur o1 out,
             html_read_from (m, cur, o1 ++ out) x
             = (let '(m', cur', out') := html_read_from (m, cur, o1) x in
                (m', cur', out' ++ out))).
  { clear. induction x as [|c x IH]; intros m cur o1 out; [reflexivity|].
    unfold html_read_from in *. cbn [fold_left html_step].
    destruct m;
      repeat match goal with
             | |- context [if ?b then _ else _] => destruct b
             end;
      first [apply IH | apply (IH _ _ (_ :: o1))]. }
  intros m cur out. apply (G x m cur [] out).
Qed.

Lemma html_read_text (x cur : jsstring) (out : list html_token) :
  ~ In 60%N x ->
  html_read_from (InText, cur, out) x = (InText, List.rev x ++ cur, out).
Proof.
  revert cur. induction x as [|c x IH]; intros cur H; [reflexivity|].
  unfold html_read_from in *. cbn [fold_left html_step].
  destruct (N.eqb_spec c 60) as [->|Hc]; [destruct H; now left|].
  rewrite IH by (intros H'; apply H; now right).
  cbn [List.rev]. now rewrite <- app_assoc.
Qed.

Lemma html_read_value (x cur : jsstring) (out : list html_token) :
  ~ In 34%N x ->
  html_read_from (InValue, cur, out) x = (InValue, List.rev x ++ cur, out).
Proof.
  revert cur. induction x as [|c x IH]; intros cur H; [reflexivity|].
  unfold html_read_from in *. cbn [fold_left html_step].
  destruct (N.eqb_spec c 34) as [->|Hc]; [destruct H; now left|].
  rewrite IH by (intros H'; apply H; now right).
  cbn [List.rev]. now rewrite <- app_assoc.
Qed.

Lemma html_unesc_esc_app (a b : jsstring) :
  html_unesc (html_esc a ++ b) = a ++ html_unesc b.
Proof.
  unfold html_unesc. induction a as [|c a IH]; [reflexivity|].
  rewrite html_esc_cons, <- app_assoc, html_unesc_unit. now rewrite IH.
Qed.

(** An escaped field between the tags around it is read as the field. *)
Lemma html_read_text_field (f : jsstring) (out : list html_token) :
  html_read_from (InText, [], out) (html_esc f ++ [60%N])
  = (InTag, [], HText f :: out).
Proof.
  rewrite html_read_from_app, html_read_text by (now apply html_esc_clean).
  cbn. now rewrite app_nil_r, rev_involutive, html_unesc_esc.
Qed.

(** An escaped field between double quotes, with or without fixed text
    after it, is read as one value. *)
Lemma html_read_value_field (f more : jsstring) (out : list html_token) :
  ~ In 34%N more ->
  html_read_from (InValue, [], out) (html_esc f ++ more ++ [34%N])
  = (InTag, [], HValue (f ++ html_unesc more) :: out).
Proof.
  intros H.
  rewrite app_assoc, html_read_from_app, html_read_value.
  2:{ rewrite in_app_iff. intros [H'|H']; [|now apply H].
      revert H'. now apply html_esc_clean. }
  cbn. now rewrite app_nil_r, rev_involutive, html_unesc_esc_app.
Qed.

(** The text before a tag, whatever was pending. *)
Lemma html_read_lead (lead cur : jsstring) (out : list html_token) :
  ~ In 60%N lead ->
  html_read_from (InText, cur, out) (lead ++ [60%N])
  = (InTag, [], HText (html_unesc (List.rev cur ++ lead)) :: out).
Proof.
  intros H. rewrite html_read_from_app, html_read_text by assumption.
  cbn. now rewrite rev_app_distr, rev_involutive.
Qed.

Ltac read_fixed :=
  rewrite html_read_frame; vm_compute; reflexivity.

Lemma card_parts (it : GalleryItem) :
  card it
  = ((nl ++ str "    ") ++ [60%N])
    ++ (str "article class=" ++ quoted (str "card") ++ str ">" ++ nl
        ++ str "      <div class=" ++ quoted (str "cover")
        ++ str "><img src=" ++ [dquote])
    ++ (html_esc (image it) ++ [] ++ [34%N])
    ++ (str " alt=" ++ [dquote])
    ++ (html_esc (title it) ++ str " cover" ++ [34%N])
    ++ (str " /></div>" ++ nl
        ++ str "      <div class=" ++ quoted (str "content") ++ str ">" ++ nl
        ++ str "        <div class=" ++ quoted (str "title") ++ str ">")
    ++ (html_esc (title it) ++ [60%N])
    ++ (str "/div>" ++ nl
        ++ str "        <div class=" ++ quoted (str "desc") ++ str ">")
    ++ (html_esc (description it) ++ [60%N])
    ++ (str "/div>" ++ nl
        ++ str "        <div class=" ++ quoted (str "actions")
        ++ str "><a class=" ++ quoted (str "btn") ++ str " href=" ++ [dquote])
    ++ (html_esc (url it) ++ [] ++ [34%N])
    ++ (str " target=" ++ quoted (str "_blank") ++ str " rel="
        ++ quoted (str "noopener") ++ str ">Download for Free</a></div>" ++ nl
        ++ str "      </div>" ++ nl
        ++ str "    </article>" ++ nl
        ++ str "  ").
Proof.
  unfold card, quoted. cbn [app]. rewrite <- !app_assoc. cbn [app].
  reflexivity.
Qed.

Lemma html_read_card (it : GalleryItem) (cur : jsstring)
    (out : list html_token) :
  html_read_from (InText, cur, out) (card it)
  = (InText, List.rev (nl ++ str "  "),
     List.rev (card_tokens it)
     ++ HText (html_unesc (List.rev cur ++ nl ++ str "    ")) :: out).
Proof.
  rewrite card_parts. do 11 rewrite html_read_from_app.
  rewrite html_read_lead by (vm_compute; intuition discriminate).
  match goal with
  | |- context [html_read_from (InTag, [], ?o) ?x] =>
      replace (html_read_from (InTag, [], o) x)
        with (InValue, @nil N,
              List.rev (tag_with "article" "class" "card"
                        ++ [HText (nl ++ str "      ")]
                        ++ tag_with "div" "class" "cover"
                        ++ [HText []; HMarkup (str "img src=")]) ++ o)
        by (symmetry; read_fixed)
  end.
  rewrite html_read_value_field by (intros []).
  match goal with
  | |- context [html_read_from (InTag, [], ?o) ?x] =>
      replace (html_read_from (InTag, [], o) x)
        with (InValue, @nil N, HMarkup (str " alt=") :: o)
        by (symmetry; read_fixed)
  end.
  rewrite html_read_value_field by (vm_compute; intuition discriminate).
  match goal with
  | |- context [html_read_from (InTag, [], ?o) ?x] =>
      replace (html_read_from (InTag, [], o) x)
        with (InText, @nil N,
              List.rev ([HMarkup (str " /"); HText []; HMarkup (str "/div");
                         HText (nl ++ str "      ")]
                        ++ tag_with "div" "class" "content"
                        ++ [HText (nl ++ str "        ")]
                        ++ tag_with "div" "class" "title") ++ o)
        by (symmetry; read_fixed)
  end.
  rewrite html_read_text_field.
  match goal with
  | |- context [html_read_from (InTag, [], ?o) ?x] =>
      replace (html_read_from (InTag, [], o) x)
        with (InText, @nil N,
              List.rev ([HMarkup (str "/div");
                         HText (nl ++ str "        ")]
                        ++ tag_with "div" "class" "desc") ++ o)
        by (symmetry; read_fixed)
  end.
  rewrite html_read_text_field.
  match goal with
  | |- context [html_read_from (InTag, [], ?o) ?x] =>
      replace (html_read_from (InTag, [], o) x)
        with (InValue, @nil N,
              List.rev ([HMarkup (str "/div");
                         HText (nl ++ str "        ")]
                        ++ tag_with "div" "class" "actions"
                        ++ [HText []; HMarkup (str "a class=");
                            HValue (str "btn"); HMarkup (str " href=")]) ++ o)
        by (symmetry; read_fixed)
  end.
  rewrite html_read_value_field by (intros []).
  match goal with
  | |- context [html_read_from (InTag, [], ?o) ?x] =>
      replace (html_read_from (InTag, [], o) x)
        with (InText, List.rev (nl ++ str "  "),
              List.rev ([HMarkup (str " target="); HValue (str "_blank");
      HMarkup (str " rel="); HValue (str "noopener");
      HMarkup [];
      HText (str "Download for Free"); HMarkup (str "/a");
      HText []; HMarkup (str "/div");
      HText (nl ++ str "      "); HMarkup (str "/div");
      HText (nl ++ str "    "); HMarkup (str "/article")]) ++ o)
        by (symmetry; read_fixed)
  end.
  f_equal. unfold card_tokens, tag_with. cbn [app List.rev].
  rewrite ?app_nil_r. cbn [html_unesc html_unesc_go].
  reflexivity.
Qed.

Lemma html_read_cards (rest : list GalleryItem) :
  forall (it : GalleryItem) (cur : jsstring) (out : list html_token),
    html_read_from (InText, cur, out) (join nl (List.map card (it :: rest)))
    = (InText, List.rev (nl ++ str "  "),
       List.rev (card_tokens it ++ more_cards rest)
       ++ HText (html_unesc (List.rev cur ++ nl ++ str "    ")) :: out).
Proof.
  induction rest as [|it2 rest IH]; intros it cur out.
  - cbn [List.map join more_cards]. rewrite app_nil_r. apply html_read_card.
  - cbn [List.map]. rewrite join_cons2, !html_read_from_app, html_read_card.
    rewrite html_read_text by (vm_compute; intuition discriminate).
    cbn [List.map] in IH. rewrite IH. f_equal.
    cbn [more_cards]. rewrite !rev_app_distr. cbn [List.rev].
    rewrite !rev_app_distr, <- !app_assoc. reflexivity.
Qed.

Lemma tail_parts :
  tail
  = ([] ++ [60%N])
    ++ (str "/div><div class=" ++ quoted (str "footer") ++ str " style="
        ++ quoted (str "margin-top:36px;font-size:13px;color:#666;")
        ++ str ">Images hosted on Cloudinary " ++ [bullet]
        ++ str " Auto-built from Google Sheets.</div></div></body></html>").
Proof. reflexivity. Qed.

Lemma html_read_tail (cur : jsstring) (out : list html_token) :
  html_read_from (InText, cur, out) tail
  = (InText, [],
     List.rev (removelast tail_tokens)
     ++ HText (html_unesc (List.rev cur)) :: out).
Proof.
  rewrite tail_parts, html_read_from_app, html_read_lead by (intros []).
  rewrite app_nil_r. generalize (HText (html_unesc (List.rev cur)) :: out).
  intros o. rewrite html_read_frame. vm_compute. reflexivity.
Qed.

Lemma html_read_head :
  html_read_from (InText, [], []) head = (InText, [], List.rev head_tokens).
Proof. vm_compute. reflexivity. Qed.

Lemma tail_tokens_last : removelast tail_tokens ++ [HText []] = tail_tokens.
Proof. reflexivity. Qed.

(** The page is read back as the fixed parts around the cards, and the
    cards hold the fields of the items as they were given. *)
Lemma html_read_page (items : list GalleryItem) :
  html_read (htmlTemplate items) = Some (page_tokens items).
Proof.
  unfold html_read, htmlTemplate, page_tokens.
  do 2 rewrite html_read_from_app. rewrite html_read_head.
  destruct items as [|it rest].
  - cbn [List.map join]. unfold html_read_from at 2. cbn [fold_left].
    rewrite html_read_tail. reflexivity.
  - rewrite html_read_cards, html_read_tail. f_equal.
    cbn [List.rev gallery_tokens]. rewrite !rev_app_distr, !rev_involutive.
    cbn [List.rev app]. rewrite !rev_app_distr, !rev_involutive.
    rewrite <- tail_tokens_last at 2.
    rewrite <- !app_assoc. reflexivity.
Qed.

End ReadingThePage.

(** C9. The escaped text holds no raw [<], [>] or double quote, and
    reading the four entities back gives the original text, so a title
    with a script tag is shown as text. In the page, the delimiters are
    those of the template alone: whatever the fields of the items hold,
    the page has as many of each as the page of the same number of empty
    items. Read back, the page is the fixed parts around one card per
    item, in order; in each card the image and the link are attribute
    values between double quotes, the title and the description are
    text, and each is the field of the item as it was given. *)
Theorem htmlTemplate_escapes :
  (forall s c, is_markup_delimiter c = true -> ~ In c (html_esc s))
  /\ (forall s, html_unesc (html_esc s) = s)
  /\ html_esc (str "<script>") = str "&lt;script&gt;"
  /\ (forall items c, is_markup_delimiter c = true ->
        occurrences c (htmlTemplate items)
        = occurrences c (htmlTemplate (List.map blank_item items)))
  /\ (forall items, html_read (htmlTemplate items) = Some (page_tokens items)).
Proof.
  split; [|split; [|split; [|split]]].
  - intros s c. apply html_esc_clean.
  - apply html_unesc_esc.
  - reflexivity.
  - intros items c Hc. unfold htmlTemplate.
    rewrite !occurrences_app. f_equal. f_equal.
    apply occurrences_join. intros it. now apply occurrences_card.
  - apply html_read_page.
Qed.

Lemma htmlTemplate_escapes_witness :
  ~ In 60%N (html_esc (str "<script>alert(1)</script>"))
  /\ occurrences 60%N (htmlTemplate [mkItem (str "<script>") [] [] []])
     = occurrences 60%N (htmlTemplate [mkItem [] [] [] []])
  /\ html_read (htmlTemplate [mkItem (str "<script>") [] [] []])
     = Some (page_tokens [mkItem (str "<script>") [] [] []]).
Proof.
  destruct htmlTemplate_escapes as (Hclean & _ & _ & Hcount & Hread).
  split; [|split].
  - apply Hclean. reflexivity.
  - apply (Hcount [mkItem (str "<script>") [] [] []] 60%N). reflexivity.
  - apply Hread.
Defined.

(* ===================================================================== *)
(** ** Reasoning about the effects *)
(* ===================================================================== *)

Section EffectFacts.
Context {R : Runtime}.

Lemma bind_Return {A B} (c : M A) (k : A -> M B) s a s1 :
  c s = (Return a, s1) -> bind c k s = k a s1.
Proof. intros H. unfold bind. now rewrite H. Qed.

Lemma bind_Throw {A B} (c : M A) (k : A -> M B) s e s1 :
  c s = (Throw e, s1) -> bind c k s = (Throw e, s1).
Proof. intros H. unfold bind. now rewrite H. Qed.

Lemma bind_inv_Return {A B} (c : M A) (k : A -> M B) s b s2 :
  bind c k s = (Return b, s2) ->
  exists a s1, c s = (Return a, s1) /\ k a s1 = (Return b, s2).
Proof.
  unfold bind. destruct (c s) as [[a|e] s1]; intros H; [eauto|discriminate].
Qed.

Lemma try_catch_Return {A} (body : M A) (h : exn -> M A) s a s1 :
  body s = (Return a, s1) -> try_catch body h s = (Return a, s1).
Proof. intros H. unfold try_catch. now rewrite H. Qed.

Lemma try_catch_Throw {A} (body : M A) (h : exn -> M A) s e s1 :
  body s = (Throw e, s1) -> try_catch body h s = h e s1.
Proof. intros H. unfold try_catch. now rewrite H. Qed.

Lemma perform_run {A} (ev : event) (op : World -> outcome A * World) s :
  perform ev op s
  = (fst (op (world s)),
     {| world := snd (op (world s)); log := log s ++ [ev] |}).
Proof. unfold perform. now destruct (op (world s)). Qed.

Lemma emits_ret {A} P (a : A) : emits P (ret a).
Proof.
  intros s r s' H. injection H as <- <-. exists []. now rewrite app_nil_r.
Qed.

Lemma emits_throw {A} P e : emits P (@throw R A e).
Proof.
  intros s r s' H. injection H as <- <-. exists []. now rewrite app_nil_r.
Qed.

Lemma emits_lift {A} P (o : outcome A) : emits P (lift o).
Proof.
  intros s r s' H. injection H as <- <-. exists []. now rewrite app_nil_r.
Qed.

Lemma emits_perform {A} (P : event -> Prop) ev (op : World -> outcome A * World) :
  P ev -> emits P (perform ev op).
Proof.
  intros HP s r s' H. rewrite perform_run in H. injection H as <- <-.
  exists [ev]. split; [reflexivity|]. now constructor.
Qed.

Lemma emits_console (P : event -> Prop) msg :
  P (EConsole msg) -> emits P (console_log msg).
Proof.
  intros HP s r s' H. injection H as <- <-.
  exists [EConsole msg]. split; [reflexivity|]. now constructor.
Qed.

Lemma emits_bind {A B} P (c : M A) (k : A -> M B) :
  emits P c -> (forall a, emits P (k a)) -> emits P (bind c k).
Proof.
  intros Hc Hk s r s'. unfold bind.
  destruct (c s) as [[a|e] s1] eqn:E; intros H.
  - destruct (Hc _ _ _ E) as (ev1 & L1 & F1).
    destruct (Hk a _ _ _ H) as (ev2 & L2 & F2).
    exists (ev1 ++ ev2). rewrite L2, L1, app_assoc.
    split; [reflexivity|]. now apply Forall_app.
  - injection H as <- <-. exact (Hc _ _ _ E).
Qed.

Lemma emits_try_catch {A} P (body : M A) (h : exn -> M A) :
  emits P body -> (forall e, emits P (h e)) -> emits P (try_catch body h).
Proof.
  intros Hc Hk s r s'. unfold try_catch.
  destruct (body s) as [[a|e] s1] eqn:E; intros H.
  - injection H as <- <-. exact (Hc _ _ _ E).
  - destruct (Hc _ _ _ E) as (ev1 & L1 & F1).
    destruct (Hk e _ _ _ H) as (ev2 & L2 & F2).
    exists (ev1 ++ ev2). rewrite L2, L1, app_assoc.
    split; [reflexivity|]. now apply Forall_app.
Qed.

Lemma emits_catch_default {A} P (c : M A) (d : A) :
  emits P c -> emits P (catch_default c d).
Proof. intros H. apply emits_try_catch; [exact H|]. intros _. apply emits_ret. Qed.

End EffectFacts.

(** Composes the [emits] lemmas along the structure of a computation;
    the side conditions on single events are closed by computation. *)
Ltac emits_step :=
  first
    [ apply emits_ret | apply emits_throw | apply emits_lift
    | apply emits_perform; reflexivity
    | apply emits_console; reflexivity
    | apply emits_catch_default
    | apply emits_try_catch; [|intros ?]
    | apply emits_bind; [|intros ?]
    | match goal with
      | |- emits _ (if ?b then _ else _) => destruct b
      | |- emits _ (match ?l with [] => _ | _ :: _ => _ end) => destruct l
      end ].

Ltac emits_auto := repeat emits_step.

Section EmittedEvents.
Context {R : Runtime}.

Lemma scrapeWithCheerio_emits u : emits not_new_page (scrapeWithCheerio u).
Proof. unfold scrapeWithCheerio. emits_auto. Qed.

Lemma scrape_page_emits page u : emits not_new_page (scrape_page page u).
Proof. unfold scrape_page, read_page, eval_or_empty. emits_auto. Qed.

Lemma uploadToCloudinary_emits u : emits not_new_page (uploadToCloudinary u).
Proof. unfold uploadToCloudinary. emits_auto. Qed.

End EmittedEvents.

(* ===================================================================== *)
(** ** Image rehosting: results *)
(* ===================================================================== *)

Section Rehosting.
Context {R : Runtime}.

(** The five ways through [uploadToCloudinary], with the calls made on
    each. *)
Lemma uploadToCloudinary_cases (imageUrl : jsstring) (s : state) :
  exists v evs w,
    uploadToCloudinary imageUrl s
    = (Return v, {| world := w; log := log s ++ evs |})
    /\ match imageUrl with
       | [] => v = Some [] /\ evs = [] /\ w = world s
       | _ :: _ =>
           match cloudinary_upload imageUrl (world s) with
           | (Return res, w1) =>
               v = secure_url res /\ evs = [EUpload imageUrl] /\ w = w1
           | (Throw _, w1) =>
               match axios_get_arraybuffer imageUrl w1 with
               | (Throw _, w2) =>
                   v = Some [] /\ w = w2
                   /\ evs = [EUpload imageUrl; EHttpGetBytes imageUrl]
               | (Return buffer, w2) =>
                   evs = [EUpload imageUrl; EHttpGetBytes imageUrl;
                          EUploadStream buffer]
                   /\ match cloudinary_upload_stream buffer w2 with
                      | (Return r, w3) => v = secure_url r /\ w = w3
                      | (Throw _, w3) => v = Some [] /\ w = w3
                      end
               end
           end
       end
    /\ (length (List.filter is_primary_upload evs) <= 1)%nat
    /\ (length (List.filter is_fallback_fetch evs) <= 1)%nat
    /\ (length (List.filter is_fallback_upload evs) <= 1)%nat.
Proof.
  destruct imageUrl as [|c u].
  - exists (Some []), [], (world s). rewrite app_nil_r. destruct s.
    repeat split; simpl; lia.
  - unfold uploadToCloudinary. cbn [truthy_str negb].
    unfold try_catch, bind. rewrite perform_run.
    destruct (cloudinary_upload (c :: u) (world s)) as [[res|e] w1];
      cbn [fst snd].
    + exists (secure_url res), [EUpload (c :: u)], w1.
      repeat split; simpl; lia.
    + rewrite perform_run. cbn [world log].
      destruct (axios_get_arraybuffer (c :: u) w1) as [[buffer|e1] w2];
        cbn [fst snd].
      * rewrite perform_run. cbn [world log].
        destruct (cloudinary_upload_stream buffer w2) as [[r|e2] w3];
          cbn [fst snd]; rewrite <- !app_assoc; cbn [app].
        -- exists (secure_url r),
             [EUpload (c :: u); EHttpGetBytes (c :: u); EUploadStream buffer], w3.
           repeat split; simpl; lia.
        -- exists (Some []),
             [EUpload (c :: u); EHttpGetBytes (c :: u); EUploadStream buffer], w3.
           repeat split; simpl; lia.
      * rewrite <- !app_assoc; cbn [app].
        exists (Some []), [EUpload (c :: u); EHttpGetBytes (c :: u)], w2.
        repeat split; simpl; lia.
Qed.

(** C7. [uploadToCloudinary] always returns: the empty string, with no
    call made, on the empty input; the URL of the primary upload when
    that succeeds; otherwise it fetches the bytes once and, when it got
    them, streams them once, and returns the URL of that upload or the
    empty string when either step failed. No call is made twice. *)
Theorem uploadToCloudinary_spec (imageUrl : jsstring) (s : state) :
  exists v evs w,
    uploadToCloudinary imageUrl s
    = (Return v, {| world := w; log := log s ++ evs |})
    /\ match imageUrl with
       | [] => v = Some [] /\ evs = [] /\ w = world s
       | _ :: _ =>
           match cloudinary_upload imageUrl (world s) with
           | (Return res, w1) =>
               v = secure_url res /\ evs = [EUpload imageUrl] /\ w = w1
           | (Throw _, w1) =>
               match axios_get_arraybuffer imageUrl w1 with
               | (Throw _, w2) =>
                   v = Some [] /\ w = w2
                   /\ evs = [EUpload imageUrl; EHttpGetBytes imageUrl]
               | (Return buffer, w2) =>
                   evs = [EUpload imageUrl; EHttpGetBytes imageUrl;
                          EUploadStream buffer]
                   /\ match cloudinary_upload_stream buffer w2 with
                      | (Return r, w3) => v = secure_url r /\ w = w3
                      | (Throw _, w3) => v = Some [] /\ w = w3
                      end
               end
           end
       end
    /\ (length (List.filter is_primary_upload evs) <= 1)%nat
    /\ (length (List.filter is_fallback_fetch evs) <= 1)%nat
    /\ (length (List.filter is_fallback_upload evs) <= 1)%nat.
Proof. apply uploadToCloudinary_cases. Qed.

End Rehosting.

(* ===================================================================== *)
(** ** The two extraction tiers: results *)
(* ===================================================================== *)

Section Extraction.
Context {R : Runtime}.

(** The static extractor always returns, after exactly one request: the
    fallback when the request or the parse throws, what the selectors
    give otherwise. *)
Lemma scrapeWithCheerio_total (u : jsstring) (s : state) :
  exists meta w,
    scrapeWithCheerio u s
    = (Return meta, {| world := w; log := log s ++ [EHttpGet u] |})
    /\ match axios_get u (world s) with
       | (Throw _, w1) => meta = fallback_meta /\ w = w1
       | (Return html, w1) =>
           w = w1 /\ match cheerio_load html with
                     | Throw _ => meta = fallback_meta
                     | Return doc => meta = extract_static doc
                     end
       end.
Proof.
  unfold scrapeWithCheerio, try_catch, bind. rewrite perform_run.
  destruct (axios_get u (world s)) as [[html|e] w1]; cbn [fst snd].
  - unfold lift. destruct (cheerio_load html) as [doc|e]; eauto.
  - eauto.
Qed.

(** The rendered extractor starts by opening a page, and opens no other. *)
Lemma scrapeWithPuppeteer_opens (browser : Browser) (u : jsstring) (s : state) :
  exists evs,
    log (snd (scrapeWithPuppeteer browser u s)) = log s ++ ENewPage browser :: evs
    /\ Forall not_new_page evs.
Proof.
  unfold scrapeWithPuppeteer. unfold bind at 1. rewrite perform_run.
  destruct (browser_newPage browser (world s)) as [[page|e] w1]; cbn [fst snd].
  - match goal with
    | |- context [snd (?c ?s1)] =>
        destruct (c s1) as [r s2] eqn:E;
        assert (Hem : emits not_new_page c)
    end.
    { emits_step. emits_step. emits_step; [apply scrape_page_emits|].
      emits_auto. }
    destruct (Hem _ _ _ E) as (evs & L & F). cbn [snd log] in *.
    exists evs. rewrite L, <- app_assoc. split; [reflexivity|assumption].
  - exists []. split; [reflexivity|constructor].
Qed.

(** An [og:image] meta is an image for the static extractor. *)
Lemma og_image_found (doc : Document) (c : N) (r : jsstring) :
  og_image doc = Some (c :: r) -> m_image (extract_static doc) <> [].
Proof.
  intros H. unfold extract_static. cbn [m_image]. rewrite H.
  cbn [js_or truthy or_str]. unfold fix_protocol.
  destruct (_ && _); discriminate.
Qed.

(** The extraction step of a link: with an image, [extract] is the
    static result and no page is opened; without, [extract] is the
    rendered extractor run after the static one, and it opens one page. *)
Lemma extract_tiers (browser : Browser) (u : jsstring) (s : state) :
  (forall doc c r, og_image doc = Some (c :: r) ->
     m_image (extract_static doc) <> []) /\
  exists meta s0,
    scrapeWithCheerio u s = (Return meta, s0)
    /\ match m_image meta with
       | [] =>
           extract browser u s
           = scrapeWithPuppeteer browser u
               (snd (console_log (str "  -> Fallback to Puppeteer") s0))
       | _ :: _ => extract browser u s = (Return meta, s0)
       end
    /\ exists evs,
         log (snd (extract browser u s)) = log s ++ evs
         /\ (In (ENewPage browser) evs <-> m_image meta = [])
         /\ length (List.filter is_new_page evs)
            = (if truthy_str (m_image meta) then 0 else 1)%nat.
Proof.
  split; [apply og_image_found|].
  destruct (scrapeWithCheerio_total u s) as (meta & w & Hs & _).
  exists meta, {| world := w; log := log s ++ [EHttpGet u] |}.
  split; [exact Hs|].
  unfold extract. rewrite (bind_Return _ _ _ _ _ Hs).
  destruct (m_image meta) as [|c img] eqn:Himg; cbn [truthy_str negb].
  - split; [reflexivity|].
    assert (E : forall s0 : state,
               bind (console_log (str "  -> Fallback to Puppeteer"))
                    (fun _ => scrapeWithPuppeteer browser u) s0
               = scrapeWithPuppeteer browser u
                   {| world := world s0;
                      log := log s0 ++ [EConsole (str "  -> Fallback to Puppeteer")] |})
      by reflexivity.
    rewrite E. clear E.
    match goal with
    | |- context [scrapeWithPuppeteer browser u ?s1] =>
        destruct (scrapeWithPuppeteer_opens browser u s1) as (evs & L & F);
        exists ([EHttpGet u; EConsole (str "  -> Fallback to Puppeteer")]
                  ++ ENewPage browser :: evs);
        rewrite L
    end.
    cbn [log]. rewrite <- !app_assoc. cbn [app].
    split; [reflexivity|]. split.
    + split; [reflexivity|]. intros _. cbn. auto.
    + cbn [List.filter is_new_page length]. f_equal.
      clear L. induction F as [|ev evs Hev F IH]; [reflexivity|].
      cbn [List.filter]. unfold not_new_page in Hev. now rewrite Hev.
  - split; [reflexivity|].
    exists [EHttpGet u]. cbn [snd log]. split; [reflexivity|]. split.
    + split; [|discriminate]. intros [H|[]]. discriminate.
    + reflexivity.
Qed.

End Extraction.

(* ===================================================================== *)
(** ** The extractors on failure *)
(* ===================================================================== *)

Section ExtractorFailures.
Context {R : Runtime}.

(** Once the page is open and configured, [scrapeWithPuppeteer] is
    guarded: a body that returns has closed the page as its last call; a
    body that throws leads to a second and last call, closing the page,
    and to the fallback when that call returns. *)
Lemma scrapeWithPuppeteer_guarded browser u s page w1 w2 :
  browser_newPage browser (world s) = (Return page, w1) ->
  page_setUserAgent page USER_AGENT w1 = (Return tt, w2) ->
  let s2 := {| world := w2;
               log := (log s ++ [ENewPage browser]) ++ [ESetUserAgent page] |} in
  match scrape_page page u s2 with
  | (Return meta, s3) =>
      scrapeWithPuppeteer browser u s = (Return meta, s3)
      /\ exists evs, log s3 = log s2 ++ evs ++ [EClosePage page]
  | (Throw _, s3) =>
      scrapeWithPuppeteer browser u s
      = (match page_close page (world s3) with
         | (Return _, w4) => Return fallback_meta
         | (Throw e, w4) => Throw e
         end,
         {| world := snd (page_close page (world s3));
            log := log s3 ++ [EClosePage page] |})
  end.
Proof.
  intros Hnew Hua s2.
  assert (E : scrapeWithPuppeteer browser u s
              = try_catch (scrape_page page u)
                  (fun _ => bind (perform (EClosePage page) (page_close page))
                                 (fun _ => ret fallback_meta)) s2).
  { unfold scrapeWithPuppeteer. unfold bind at 1. rewrite perform_run, Hnew.
    cbn [fst snd]. unfold bind at 1. rewrite perform_run. cbn [world log].
    rewrite Hua. reflexivity. }
  rewrite E. unfold try_catch.
  destruct (scrape_page page u s2) as [[meta|e] s3] eqn:Hbody.
  - split; [reflexivity|].
    unfold scrape_page in Hbody.
    apply bind_inv_Return in Hbody as (m & sa & Hread & Hclose).
    apply bind_inv_Return in Hclose as (? & sb & Hclose & Hret).
    injection Hret as _ <-.
    rewrite perform_run in Hclose. injection Hclose as _ <-. cbn [log].
    assert (Hem : emits (fun _ => True) (read_page page u)).
    { unfold read_page, eval_or_empty. emits_auto. }
    destruct (Hem _ _ _ Hread) as (evs & L & _).
    exists evs. now rewrite L, app_assoc.
  - unfold bind. rewrite perform_run.
    destruct (page_close page (world s3)) as [[[]|e'] w4]; reflexivity.
Qed.

(** Whatever is not white space only survives normalisation. *)
Lemma shorten_nonempty (d : jsstring) (n : Z) :
  trim (collapse_ws d) <> [] -> shorten (Some d) n <> [].
Proof.
  intros H. unfold shorten.
  destruct d as [|c d]; [now elim H|]. cbn [truthy negb String_of].
  destruct (_ <=? n); [exact H|].
  intros E. apply app_eq_nil in E as [_ E]. discriminate.
Qed.

(** Where the description of the static extractor can be empty: the
    chosen source is not the empty string, yet white space only. *)
Lemma extract_static_description (d : Document) :
  let desc :=
    or_str (js_or (js_or (Some (trim (collapse_ws (about_text d))))
                         (meta_description d))
                  (og_description d)) [] in
  (desc = [] -> m_description (extract_static d) = DEFAULT_DESC)
  /\ (trim (collapse_ws desc) <> [] -> m_description (extract_static d) <> []).
Proof.
  intros desc. unfold extract_static. cbn [m_description]. fold desc.
  split.
  - intros ->. vm_compute. reflexivity.
  - intros H. unfold shorten_default.
    destruct desc as [|c r] eqn:E; [now elim H|].
    cbn [str_or truthy_str]. now apply shorten_nonempty.
Qed.

End ExtractorFailures.

(** C4 fails on the code. [browser.newPage()] and [page.setUserAgent()]
    are awaited before the [try]: when the first rejects the function
    throws; when the second rejects it throws and the page it opened is
    never closed. *)
Theorem scrapeWithPuppeteer_throws :
  @scrapeWithPuppeteer browser_down 0%nat (str "https://a.example/x/")
      (start browser_down tt)
  = (Throw (Error (str "Target closed")),
     @mkState browser_down tt [ENewPage 0%nat])
  /\ @scrapeWithPuppeteer agent_rejected 0%nat (str "https://a.example/x/")
        (start agent_rejected tt)
     = (Throw (Error (str "Protocol error")),
        @mkState agent_rejected tt [ENewPage 0%nat; ESetUserAgent 1%nat]).
Proof. split; reflexivity. Qed.

(** C6 fails on the code. Both extractors fall back to the default
    sentence only when the chosen source is the empty string; a
    description meta of one space is chosen, and is normalised to the
    empty string. *)
Theorem scrapeWithCheerio_empty_description :
  @scrapeWithCheerio blank_description (str "https://a.example/x/")
      (start blank_description tt)
  = (Return {| m_title := str "Deck"; m_description := [];
               m_image := str "https://cdn.example/deck.png" |},
     @mkState blank_description tt [EHttpGet (str "https://a.example/x/")]).
Proof. reflexivity. Qed.

(* ===================================================================== *)
(** ** The orchestration loop: results *)
(* ===================================================================== *)

Section Orchestration.
Context {R : Runtime}.

Lemma placeholder_nonempty : placeholder <> [].
Proof. unfold placeholder. discriminate. Qed.

Lemma make_item_image (u : jsstring) (meta : ExtractedMeta) (hosted : jsval) :
  image (make_item u meta hosted) <> []
  /\ match hosted with
     | Some (c :: h) => image (make_item u meta hosted) = c :: h
     | _ => image (make_item u meta hosted) = placeholder
     end.
Proof.
  cbn [make_item image].
  destruct hosted as [[|c h]|]; cbn [or_str];
    (split; [first [apply placeholder_nonempty | discriminate] | reflexivity]).
Qed.

Lemma process_link_produced browser u s it s' :
  process_link browser u s = (Return it, s') -> produced browser u it.
Proof.
  unfold process_link. intros H.
  apply bind_inv_Return in H as (_ & s0 & _ & H).
  apply bind_inv_Return in H as (meta & s1 & Hmeta & H).
  apply bind_inv_Return in H as (hosted & s2 & Hup & H).
  apply bind_inv_Return in H as (_ & s3 & _ & H).
  injection H as <- _.
  now exists s0, meta, s1, hosted, s2.
Qed.

Lemma for_links_produced browser links acc s items s' :
  for_links browser links acc s = (Return items, s') ->
  exists new, items = acc ++ new /\ Forall2 (produced browser) links new.
Proof.
  revert acc s. induction links as [|u rest IH]; intros acc s H.
  - injection H as <- _. exists []. now rewrite app_nil_r.
  - cbn [for_links] in H.
    apply bind_inv_Return in H as (it & s1 & Hit & H).
    apply IH in H as (new & -> & Hnew).
    exists (it :: new). rewrite <- app_assoc. split; [reflexivity|].
    constructor; [|assumption]. now apply process_link_produced in Hit.
Qed.

Lemma run_produced links s items s' :
  run links s = (Return items, s') ->
  exists browser, Forall2 (produced browser) links items.
Proof.
  unfold run. intros H.
  apply bind_inv_Return in H as (browser & s1 & _ & H).
  apply bind_inv_Return in H as (items' & s2 & Hloop & H).
  apply bind_inv_Return in H as (_ & s3 & _ & H).
  injection H as <- _.
  apply for_links_produced in Hloop as (new & -> & Hnew).
  now exists browser.
Qed.

Lemma produced_url browser u it : produced browser u it -> url it = u.
Proof. intros (? & ? & ? & ? & ? & _ & _ & ->). reflexivity. Qed.

(** A completed run has one item per link, in the order of the links. *)
Lemma run_one_item_per_link links s items s' :
  run links s = (Return items, s') ->
  length items = length links /\ List.map url items = links.
Proof.
  intros H. apply run_produced in H as (browser & H).
  induction H as [|u it links items Hp _ [IH1 IH2]]; [now split|].
  cbn [length List.map]. apply produced_url in Hp.
  split; congruence.
Qed.


Lemma split_nonempty (c : N) (p : jsstring) : split c p <> [].
Proof.
  destruct p as [|x p]; cbn [split]; [discriminate|].
  destruct (x =? c)%N; [discriminate|].
  destruct (split c p); discriminate.
Qed.

Lemma split_slash_end (c : N) (p : jsstring) :
  split c (p ++ [c]) = split c p ++ [[]].
Proof.
  induction p as [|x p IH]; cbn [app split].
  - now rewrite N.eqb_refl.
  - destruct (x =? c)%N; rewrite IH; [reflexivity|].
    pose proof (split_nonempty c p).
    destruct (split c p) as [|h t]; [congruence|reflexivity].
Qed.

Lemma title_from_url_slash (p : jsstring) : title_from_url (p ++ [47%N]) = [].
Proof.
  unfold title_from_url, pop. rewrite split_slash_end, last_last. reflexivity.
Qed.

End Orchestration.


(** C10. A URL that ends with a slash has an empty last segment, so the
    title derived from it is empty; an item made from an empty extracted
    title and such a URL has an empty title; and there is a run whose
    final list holds such an item. *)
Theorem empty_title_survives :
  (forall p : jsstring, title_from_url (p ++ [47%N]) = [])
  /\ (forall (R : Runtime) p meta hosted,
        m_title meta = [] ->
        title (@make_item R (p ++ [47%N]) meta hosted) = [])
  /\ (exists s',
        @run nothing_found [str "https://a.example/x/"] (start nothing_found tt)
        = (Return [mkItem [] DEFAULT_DESC (@placeholder nothing_found)
                          (str "https://a.example/x/")], s')).
Proof.
  split; [|split].
  - apply title_from_url_slash.
  - intros R p meta hosted Ht. cbn [make_item title]. rewrite Ht.
    apply title_from_url_slash.
  - eexists. vm_compute. reflexivity.
Qed.

Lemma empty_title_witness :
  title (@make_item healthy (str "https://a.example/x/") fallback_meta None) = [].
Proof.
  destruct empty_title_survives as (_ & H & _).
  apply (H healthy (str "https://a.example/x") fallback_meta None).
  reflexivity.
Defined.

(* ===================================================================== *)
(** ** The whole pipeline: results *)
(* ===================================================================== *)

Section CsvReading.

Lemma csv_read_quoted_body (x field : jsstring) row rows rest :
  csv_read Quoted field row rows
    (replace_all dquote [dquote; dquote] x ++ rest)
  = csv_read Quoted (rev x ++ field) row rows rest.
Proof.
  revert field. induction x as [|c x IH]; intros field; [reflexivity|].
  unfold replace_all, replace_class in *. cbn [flat_map].
  destruct (N.eqb_spec c dquote) as [->|Hc].
  - rewrite <- app_assoc. cbn [app csv_read].
    change (dquote =? dquote)%N with true. cbv iota.
    rewrite IH. cbn [rev]. now rewrite <- app_assoc.
  - rewrite <- app_assoc. cbn [app csv_read].
    apply N.eqb_neq in Hc. rewrite Hc.
    rewrite IH. cbn [rev]. now rewrite <- app_assoc.
Qed.

Lemma csv_read_field (x : jsstring) row rows rest :
  csv_read FieldStart [] row rows (csv_esc x ++ rest)
  = csv_read QuoteSeen (rev x) row rows rest.
Proof.
  unfold csv_esc, quoted. rewrite str_or_empty.
  cbn [app csv_read]. change (dquote =? dquote)%N with true. cbv iota.
  rewrite <- app_assoc, csv_read_quoted_body, app_nil_r.
  cbn [app csv_read]. change (dquote =? dquote)%N with true. reflexivity.
Qed.

Lemma csv_read_comma (field : jsstring) row rows rest :
  csv_read QuoteSeen field row rows (str "," ++ rest)
  = csv_read FieldStart [] (rev field :: row) rows rest.
Proof. reflexivity. Qed.

Lemma csv_read_row (p : GalleryItem) rows rest :
  csv_read FieldStart [] [] rows (csv_row p ++ rest)
  = csv_read QuoteSeen (rev (url p)) [image p; description p; title p] rows rest.
Proof.
  unfold csv_row, csv_fields. cbn [List.map join].
  rewrite <- !app_assoc.
  rewrite csv_read_field, csv_read_comma, rev_involutive.
  rewrite csv_read_field, csv_read_comma, rev_involutive.
  rewrite csv_read_field, csv_read_comma, rev_involutive.
  now rewrite csv_read_field.
Qed.

Lemma csv_read_body (items : list GalleryItem) rows :
  csv_read FieldStart [] [] rows (csv_body items)
  = rev rows ++ List.map csv_fields items.
Proof.
  unfold csv_body. destruct items as [|p ps]; [cbn; now rewrite app_nil_r|].
  revert p rows. induction ps as [|q ps IH]; intros p rows.
  - cbn [List.map join]. rewrite <- (app_nil_r (csv_row p)), csv_read_row.
    cbn [csv_read rev csv_fields]. now rewrite rev_involutive.
  - cbn [List.map] in *. rewrite join_cons2, csv_read_row.
    cbn [nl app csv_read].
    change (10 =? dquote)%N with false. change (10 =? 44)%N with false.
    change (10 =? 10)%N with true. cbv iota.
    rewrite IH. cbn [rev csv_fields]. rewrite rev_involutive, <- app_assoc.
    reflexivity.
Qed.

(** What [products.csv] holds reads back as the header and one record
    per item, the four fields as they are in the item. *)
Lemma csv_records_products (items : list GalleryItem) :
  csv_records (csv_header ++ csv_body items)
  = csv_header_fields :: List.map csv_fields items.
Proof.
  unfold csv_records.
  transitivity (csv_read FieldStart [] [] [csv_header_fields] (csv_body items));
    [reflexivity|].
  now rewrite csv_read_body.
Qed.

End CsvReading.

(** The dump, read back. *)
Section ReadingTheDump.

Lemma json_lex_from_app st (a b : jsstring) :
  json_lex_from st (a ++ b) = json_lex_from (json_lex_from st a) b.
Proof. apply fold_left_app. Qed.

Lemma json_lex_from_cons st (c : N) (r : jsstring) :
  json_lex_from st (c :: r) = json_lex_from (json_step st c) r.
Proof. reflexivity. Qed.

(** Reading only adds tokens in front of those read before. *)
Lemma json_lex_frame (x : jsstring) (m : json_mode) (cur : jsstring)
    (out : list json_token) :
  json_lex_from (m, cur, out) x
  = (let '(m', cur', out') := json_lex_from (m, cur, []) x in
     (m', cur', out' ++ out)).
Proof.
  assert (G : forall x m cur o1 out,
             json_lex_from (m, cur, o1 ++ out) x
             = (let '(m', cur', out') := json_lex_from (m, cur, o1) x in
                (m', cur', out' ++ out))).
  { clear. induction x as [|c x IH]; intros m cur o1 out; [reflexivity|].
    rewrite !json_lex_from_cons. cbn [json_step].
    destruct m as [| | |k acc|].
    - destruct (is_json_space c); [apply IH|].
      destruct (c =? 34)%N; [apply IH|].
      destruct (json_punct c); [apply (IH _ _ (_ :: o1))|apply IH].
    - destruct (c =? 34)%N; [apply (IH _ _ (_ :: o1))|].
      destruct (c =? 92)%N; [apply IH|].
      destruct (c <? 32)%N; apply IH.
    - destruct (json_unescape c); [apply IH|].
      destruct (c =? 117)%N; apply IH.
    - destruct (hex_value c); [|apply IH].
      destruct (k =? 3)%nat; apply IH.
    - apply IH. }
  apply (G x m cur [] out).
Qed.

Lemma hex_value_digit (d : N) :
  (d < 16)%N -> hex_value (hex_digit d) = Some d.
Proof.
  intros H.
  assert (E : In d [0;1;2;3;4;5;6;7;8;9;10;11;12;13;14;15]%N).
  { cbn [In]. lia. }
  cbn [In] in E.
  repeat (destruct E as [<-|E]; [reflexivity|]). destruct E.
Qed.

(** The four digits of a code unit give the unit back. *)
Lemma json_lex_UnicodeEscape (c : N) (cur : jsstring)
    (out : list json_token) :
  (c < 65536)%N ->
  json_lex_from (JIn, cur, out) (UnicodeEscape c) = (JIn, c :: cur, out).
Proof.
  intros H. unfold UnicodeEscape. rewrite !json_lex_from_cons.
  change (json_step (JIn, cur, out) 92) with (JEsc, cur, out).
  change (json_step (JEsc, cur, out) 117) with (JHex 0 0, cur, out).
  replace (c / 4096)%N with (c / 16 / 16 / 16)%N
    by (rewrite !N.Div0.div_div; reflexivity).
  replace (c / 256)%N with (c / 16 / 16)%N
    by (rewrite N.Div0.div_div; reflexivity).
  pose proof (N.div_mod c 16) as E0.
  pose proof (N.div_mod (c / 16) 16) as E1.
  pose proof (N.div_mod (c / 16 / 16) 16) as E2.
  pose proof (N.mod_lt c 16) as H0.
  pose proof (N.mod_lt (c / 16) 16) as H1.
  pose proof (N.mod_lt (c / 16 / 16) 16) as H2.
  assert (H3 : (c / 16 / 16 / 16 < 16)%N).
  { rewrite !N.Div0.div_div. apply N.Div0.div_lt_upper_bound. lia. }
  cbn [json_step json_lex_from fold_left].
  rewrite hex_value_digit by exact H3.
  cbn [json_step Nat.eqb]. rewrite hex_value_digit by lia.
  cbn [json_step Nat.eqb]. rewrite hex_value_digit by lia.
  cbn [json_step Nat.eqb]. rewrite hex_value_digit by lia.
  cbn [Nat.eqb]. do 3 f_equal. lia.
Qed.

(** A quoted code unit is read as the unit. *)
Lemma json_lex_code_unit (c : N) (cur : jsstring) (out : list json_token) :
  json_lex_from (JIn, cur, out) (quote_code_unit c) = (JIn, c :: cur, out).
Proof.
  unfold quote_code_unit.
  destruct (N.eqb_spec c 8) as [->|H8]; [reflexivity|].
  destruct (N.eqb_spec c 9) as [->|H9]; [reflexivity|].
  destruct (N.eqb_spec c 10) as [->|H10]; [reflexivity|].
  destruct (N.eqb_spec c 12) as [->|H12]; [reflexivity|].
  destruct (N.eqb_spec c 13) as [->|H13]; [reflexivity|].
  destruct (N.eqb_spec c 34) as [->|H34]; [reflexivity|].
  destruct (N.eqb_spec c 92) as [->|H92]; [reflexivity|].
  destruct ((c <? 32)%N || is_leading_surrogate c || is_trailing_surrogate c)
    eqn:E.
  - apply json_lex_UnicodeEscape.
    unfold is_leading_surrogate, is_trailing_surrogate in E.
    rewrite !orb_true_iff, !andb_true_iff, N.ltb_lt, !N.leb_le in E. lia.
  - rewrite !orb_false_iff in E. destruct E as [[E _] _].
    unfold json_lex_from. cbn [fold_left json_step].
    apply N.eqb_neq in H34, H92. now rewrite H34, H92, E.
Qed.

Lemma json_lex_surrogate (c : N) (cur : jsstring) (out : list json_token) :
  (55296 <= c)%N ->
  json_step (JIn, cur, out) c = (JIn, c :: cur, out).
Proof.
  intros H. cbn [json_step].
  destruct (N.eqb_spec c 34); [lia|]. destruct (N.eqb_spec c 92); [lia|].
  destruct (N.ltb_spec c 32); [lia|]. reflexivity.
Qed.

(** The quoted code points of a string are read as the string. *)
Lemma json_lex_code_points (s : jsstring) :
  forall cur out,
    json_lex_from (JIn, cur, out) (quote_code_points s)
    = (JIn, List.rev s ++ cur, out).
Proof.
  enough (G : (forall cur out,
                 json_lex_from (JIn, cur, out) (quote_code_points s)
                 = (JIn, List.rev s ++ cur, out))
              /\ (forall c cur out,
                    json_lex_from (JIn, cur, out) (quote_code_points (c :: s))
                    = (JIn, List.rev (c :: s) ++ cur, out)))
    by apply G.
  induction s as [|a s [IH1 IH2]].
  - split; [reflexivity|]. intros c cur out. cbn [quote_code_points].
    apply json_lex_code_unit.
  - split; [apply IH2|]. intros c cur out.
    change (quote_code_points (c :: a :: s))
      with (if is_leading_surrogate c && is_trailing_surrogate a
            then c :: a :: quote_code_points s
            else quote_code_unit c ++ quote_code_points (a :: s)).
    destruct (is_leading_surrogate c && is_trailing_surrogate a) eqn:E.
    + apply andb_true_iff in E. destruct E as [Ec Ea].
      unfold is_leading_surrogate in Ec. unfold is_trailing_surrogate in Ea.
      rewrite andb_true_iff, !N.leb_le in Ec, Ea.
      rewrite !json_lex_from_cons, !json_lex_surrogate by lia.
      rewrite IH1. cbn [List.rev]. now rewrite <- !app_assoc.
    + rewrite json_lex_from_app, json_lex_code_unit, IH2.
      cbn [List.rev]. now rewrite <- !app_assoc.
Qed.

Lemma json_lex_QuoteJSONString (s : jsstring) (cur : jsstring)
    (out : list json_token) :
  json_lex_from (JOut, cur, out) (QuoteJSONString s)
  = (JOut, [], JStr s :: out).
Proof.
  unfold QuoteJSONString, quoted. rewrite json_lex_from_cons.
  cbn [json_step]. change (is_json_space dquote) with false.
  change (dquote =? 34)%N with true. cbv iota.
  rewrite json_lex_from_app, json_lex_code_points.
  cbn. now rewrite app_nil_r, rev_involutive.
Qed.

Lemma json_lex_member (k v : jsstring) (cur : jsstring)
    (out : list json_token) :
  json_lex_from (JOut, cur, out) (JSON_member k v)
  = (JOut, [], JStr v :: JColon :: JStr k :: out).
Proof.
  unfold JSON_member.
  rewrite !json_lex_from_app, json_lex_QuoteJSONString.
  change (json_lex_from (JOut, [], JStr k :: out) (str ": "))
    with (JOut, @nil N, JColon :: JStr k :: out).
  apply json_lex_QuoteJSONString.
Qed.

(** A fixed part of the dump, read by computation. *)
Ltac no_variable x :=
  match x with
  | context [?v] => is_var v; fail 1
  | _ => idtac
  end.

Ltac lex_fixed :=
  match goal with
  | |- context [json_lex_from (JOut, [], ?o) ?x] =>
      no_variable x;
      let r := eval vm_compute in (json_lex_from (JOut, [], []) x) in
      match r with
      | (?m, ?c, ?o') =>
          let o2 := eval cbn [app] in (o' ++ o) in
          replace (json_lex_from (JOut, [], o) x) with (m, c, o2)
            by (symmetry; rewrite json_lex_frame; reflexivity)
      end
  end.

(** The tokens of an object of the dump. *)
Lemma json_lex_object (it : GalleryItem) (out : list json_token) :
  json_lex_from (JOut, [], out) (SerializeJSONObject JSON_gap it)
  = (JOut, [], List.rev (object_tokens it) ++ out).
Proof.
  unfold SerializeJSONObject, JSON_block. cbn [join].
  rewrite !json_lex_from_app.
  repeat first [rewrite json_lex_member | lex_fixed].
  reflexivity.
Qed.

Lemma json_lex_objects (rest : list GalleryItem) :
  forall (it : GalleryItem) (out : list json_token),
    json_lex_from (JOut, [], out)
      (join (str "," ++ nl ++ [] ++ JSON_gap)
         (SerializeJSONObject JSON_gap it
          :: List.map (SerializeJSONObject JSON_gap) rest))
    = (JOut, [], List.rev (object_tokens it ++ more_objects rest) ++ out).
Proof.
  induction rest as [|it2 rest IH]; intros it out.
  - cbn [List.map join more_objects]. rewrite app_nil_r.
    apply json_lex_object.
  - cbn [List.map]. rewrite join_cons2, !json_lex_from_app.
    rewrite json_lex_object. repeat lex_fixed.
    rewrite IH. f_equal. cbn [more_objects].
    rewrite !rev_app_distr. cbn [List.rev].
    rewrite !rev_app_distr, <- !app_assoc. reflexivity.
Qed.

Lemma json_lex_dump (items : list GalleryItem) :
  json_lex (JSON_stringify items) = Some (dump_tokens items).
Proof.
  destruct items as [|it rest]; [reflexivity|].
  unfold json_lex, JSON_stringify, JSON_block. cbn [List.map].
  rewrite !json_lex_from_app.
  repeat lex_fixed. rewrite json_lex_objects. repeat lex_fixed.
  cbn [dump_tokens List.rev]. rewrite !rev_app_distr, !rev_involutive.
  cbn [List.rev app]. rewrite ?rev_involutive, <- !app_assoc. reflexivity.
Qed.

(** The records of the tokens of an object. *)
Lemma json_group_object (it : GalleryItem) (p : json_phase)
    (recs : list (list (jsstring * jsstring))) (more : list json_token) :
  p = PArr \/ p = PMore ->
  fold_left json_group_step (object_tokens it ++ more) (p, [], recs)
  = fold_left json_group_step more (PEnd, [], json_fields it :: recs).
Proof. intros [-> | ->]; reflexivity. Qed.

Lemma json_group_more (rest : list GalleryItem) :
  forall (recs : list (list (jsstring * jsstring))) (more : list json_token),
    fold_left json_group_step (more_objects rest ++ more) (PEnd, [], recs)
    = fold_left json_group_step more
        (PEnd, [], List.rev (List.map json_fields rest) ++ recs).
Proof.
  induction rest as [|it rest IH]; intros recs more; [reflexivity|].
  cbn [more_objects List.map List.rev]. rewrite <- !app_assoc.
  change ((JComma :: object_tokens it ++ more_objects rest) ++ more)
    with (JComma :: (object_tokens it ++ more_objects rest) ++ more).
  cbn [fold_left json_group_step].
  rewrite <- app_assoc, json_group_object by (now right).
  rewrite IH. reflexivity.
Qed.

Lemma json_group_dump (items : list GalleryItem) :
  json_group (dump_tokens items) = Some (List.map json_fields items).
Proof.
  destruct items as [|it rest]; [reflexivity|].
  unfold json_group. cbn [dump_tokens fold_left json_group_step].
  rewrite json_group_object by (now left). rewrite json_group_more.
  cbn [fold_left json_group_step List.map].
  now rewrite rev_app_distr, rev_involutive.
Qed.

(** The dump is read back as one record per item, in order, with the
    four fields of the item under their names. *)
Lemma json_records_dump (items : list GalleryItem) :
  json_records (JSON_stringify items) = Some (List.map json_fields items).
Proof.
  unfold json_records. rewrite json_lex_dump. apply json_group_dump.
Qed.

End ReadingTheDump.

Section Pipeline.
Context {R : Runtime}.
Hypothesis Hdep : dependable R.

Lemma scrapeWithPuppeteer_returns browser u s :
  exists meta s', scrapeWithPuppeteer browser u s = (Return meta, s').
Proof.
  destruct (newPage_returns R Hdep browser (world s)) as (page & w1 & Hnew).
  destruct (setUserAgent_returns R Hdep page USER_AGENT w1) as ([] & w2 & Hua).
  pose proof (scrapeWithPuppeteer_guarded browser u s page w1 w2 Hnew Hua) as G.
  cbv zeta in G.
  destruct (scrape_page page u _) as [[meta|e] s3].
  - destruct G as [G _]. eauto.
  - destruct (page_close_returns R Hdep page (world s3)) as ([] & w4 & Hclose).
    rewrite Hclose in G. eauto.
Qed.

Lemma extract_returns browser u s :
  exists meta s', extract browser u s = (Return meta, s').
Proof.
  destruct (scrapeWithCheerio_total u s) as (meta & w & Hs & _).
  unfold extract. rewrite (bind_Return _ _ _ _ _ Hs).
  destruct (negb (truthy_str (m_image meta))); [|unfold ret; eauto].
  unfold bind, console_log. apply scrapeWithPuppeteer_returns.
Qed.

Lemma process_link_returns browser u s :
  exists it s', process_link browser u s = (Return it, s').
Proof.
  unfold process_link. unfold bind at 1. cbn [console_log].
  match goal with
  | |- context [bind (extract browser u) _ ?s0] =>
      destruct (extract_returns browser u s0) as (meta & s1 & Hex)
  end.
  rewrite (bind_Return _ _ _ _ _ Hex).
  destruct (uploadToCloudinary_cases (m_image meta) s1)
    as (hosted & evs & w & Hup & _).
  rewrite (bind_Return _ _ _ _ _ Hup).
  destruct (negb (truthy hosted)); unfold bind, console_log, ret; eauto.
Qed.

Lemma for_links_returns browser links acc s :
  exists items s', for_links browser links acc s = (Return items, s').
Proof.
  revert acc s. induction links as [|u rest IH]; intros acc s.
  - unfold for_links, ret. eauto.
  - cbn [for_links].
    destruct (process_link_returns browser u s) as (it & s1 & Hit).
    rewrite (bind_Return _ _ _ _ _ Hit). apply IH.
Qed.

Lemma run_returns links s :
  exists items s', run links s = (Return items, s').
Proof.
  unfold run.
  destruct (launch_returns R Hdep (world s)) as (browser & w1 & Hl).
  unfold bind at 1. rewrite perform_run, Hl. cbn [fst snd].
  match goal with
  | |- context [bind (for_links browser links []) _ ?s1] =>
      destruct (for_links_returns browser links [] s1) as (items & s2 & Hloop)
  end.
  rewrite (bind_Return _ _ _ _ _ Hloop).
  destruct (browser_close_returns R Hdep browser (world s2)) as ([] & w3 & Hc).
  unfold bind. rewrite perform_run, Hc. cbn [fst snd]. unfold ret. eauto.
Qed.

Lemma process_link_emits browser u : emits not_write_file (process_link browser u).
Proof.
  unfold process_link, extract, scrapeWithCheerio, scrapeWithPuppeteer,
    scrape_page, read_page, eval_or_empty, uploadToCloudinary.
  emits_auto.
Qed.

Lemma for_links_emits browser links acc :
  emits not_write_file (for_links browser links acc).
Proof.
  revert acc. induction links as [|u rest IH]; intros acc; cbn [for_links].
  - apply emits_ret.
  - apply emits_bind; [apply process_link_emits|]. intros it. apply IH.
Qed.

Lemma run_emits links : emits not_write_file (run links).
Proof.
  unfold run. emits_step. { emits_step. }
  emits_step. { apply for_links_emits. }
  emits_auto.
Qed.

Lemma publish_returns items s :
  exists w,
    publish items s
    = (Return tt,
       {| world := w;
          log := log s
                 ++ [EWriteFile (path_join DIST (str "data.json")) (JSON_stringify items);
                     EWriteFile (path_join DIST (str "products.csv"))
                                (csv_header ++ csv_body items);
                     EWriteFile (path_join DIST (str "index.html")) (htmlTemplate items);
                     EConsole (str "Build complete: dist/index.html, dist/data.json, dist/products.csv")] |}).
Proof.
  unfold publish, writeArtifacts, write_file, bind, console_log.
  rewrite perform_run.
  destruct (writeFile_returns R Hdep (path_join DIST (str "data.json"))
              (JSON_stringify items) (world s)) as ([] & w1 & H1).
  rewrite H1. cbn [fst snd]. rewrite perform_run. cbn [world log].
  destruct (writeFile_returns R Hdep (path_join DIST (str "products.csv"))
              (csv_header ++ csv_body items) w1) as ([] & w2 & H2).
  rewrite H2. cbn [fst snd]. rewrite perform_run. cbn [world log].
  destruct (writeFile_returns R Hdep (path_join DIST (str "index.html"))
              (htmlTemplate items) w2) as ([] & w3 & H3).
  rewrite H3. cbn [fst snd world log]. exists w3.
  rewrite <- !app_assoc. reflexivity.
Qed.

End Pipeline.




(* ===================================================================== *)
(** ** Text normaliser: shape of the result *)
(* ===================================================================== *)

Section NormalisedText.

Lemma drop_while_split (p : N -> bool) (s : jsstring) :
  exists k, s = k ++ drop_while p s /\ Forall (fun c => p c = true) k.
Proof.
  induction s as [|c r (k & E & F)]; [now exists []|].
  cbn [drop_while]. destruct (p c) eqn:Hc.
  - exists (c :: k). cbn [app]. split; [now f_equal|]. now constructor.
  - now exists [].
Qed.

Lemma drop_while_head (p : N -> bool) (s : jsstring) (c : N) (r : jsstring) :
  drop_while p s = c :: r -> p c = false.
Proof.
  induction s as [|x s IH]; cbn [drop_while]; [discriminate|].
  destruct (p x) eqn:Hx; [exact IH|]. intros E. injection E as <- _. exact Hx.
Qed.

Lemma drop_while_end_split (p : N -> bool) (s : jsstring) :
  exists k, s = drop_while_end p s ++ k /\ Forall (fun c => p c = true) k.
Proof.
  unfold drop_while_end.
  destruct (drop_while_split p (rev s)) as (k & E & F).
  exists (rev k). split.
  - rewrite <- rev_app_distr, <- E. now rewrite rev_involutive.
  - apply Forall_forall. intros x Hx. apply list_elem_of_In, in_rev in Hx.
    rewrite List.Forall_forall in F. now apply F.
Qed.

Lemma drop_while_end_last (p : N -> bool) (s body : jsstring) (c : N) :
  drop_while_end p s = body ++ [c] -> p c = false.
Proof.
  unfold drop_while_end. intros E.
  apply (f_equal (@rev N)) in E. rewrite rev_involutive, rev_app_distr in E.
  cbn [rev app] in E. now apply drop_while_head in E.
Qed.

Lemma slice_from_start (s : jsstring) (e : Z) :
  0 <= e -> slice s 0 e = take (Z.to_nat e) s.
Proof.
  intros He. unfold slice, clamp_index. change (0 <? 0) with false. cbv iota.
  destruct (e <? 0) eqn:E; [apply Z.ltb_lt in E; lia|].
  rewrite (Z.min_l 0) by lia. change (Z.to_nat 0) with 0%nat. rewrite skipn_O.
  rewrite Z.sub_0_r.
  destruct (Z.le_ge_cases e (Z.of_nat (length s))).
  - now rewrite Z.min_l by lia.
  - rewrite Z.min_r by lia. rewrite Nat2Z.id.
    rewrite firstn_all. symmetry. apply take_ge. lia.
Qed.

(** Where [lastIndexOf] points, when it points somewhere. *)
Lemma lastIndexOf_from_spec (c : N) (s : jsstring) (i found : Z) :
  lastIndexOf_from i found c s = found
  \/ (i <= lastIndexOf_from i found c s < i + Z.of_nat (length s)
      /\ s !! Z.to_nat (lastIndexOf_from i found c s - i) = Some c).
Proof.
  revert i found. induction s as [|x s IH]; intros i found; [now left|].
  cbn [lastIndexOf_from length].
  destruct (IH (i + 1) (if (x =? c)%N then i else found)) as [E|[Hr Hl]].
  - rewrite E. destruct (N.eqb_spec x c) as [->|]; [right|now left].
    split; [lia|]. now rewrite Z.sub_diag.
  - right. split; [lia|].
    replace (Z.to_nat (lastIndexOf_from (i + 1) (if (x =? c)%N then i else found) c s - i))
      with (S (Z.to_nat (lastIndexOf_from (i + 1) (if (x =? c)%N then i else found) c s - (i + 1))))
      by lia.
    exact Hl.
Qed.

Lemma lastIndexOf_lookup (c : N) (s : jsstring) :
  0 <= lastIndexOf c s -> s !! Z.to_nat (lastIndexOf c s) = Some c.
Proof.
  intros H. unfold lastIndexOf in *.
  destruct (lastIndexOf_from_spec c s 0 (-1)) as [E|[_ Hl]]; [lia|].
  now rewrite Z.sub_0_r in Hl.
Qed.

End NormalisedText.

Section Truncation.

Lemma lastIndexOf_from_ge (c : N) (s : jsstring) (i found : Z) (j : nat) :
  s !! j = Some c -> i + Z.of_nat j <= lastIndexOf_from i found c s.
Proof.
  revert i found j. induction s as [|x s IH]; intros i found j Hj; [discriminate|].
  cbn [lastIndexOf_from]. destruct j as [|j].
  - injection Hj as ->. rewrite N.eqb_refl.
    destruct (lastIndexOf_from_spec c s (i + 1) i) as [E|[Hr _]]; lia.
  - specialize (IH (i + 1) (if (x =? c)%N then i else found) j Hj). lia.
Qed.

Lemma lastIndexOf_bounds (c : N) (s : jsstring) :
  -1 <= lastIndexOf c s < Z.of_nat (length s).
Proof.
  unfold lastIndexOf.
  destruct (lastIndexOf_from_spec c s 0 (-1)) as [E|[Hr _]]; lia.
Qed.

(** The truncating branch of [shorten], with its two slices as prefixes. *)
Lemma shorten_truncated_eq (s : jsstring) (n : Z) :
  s <> [] -> n < Z.of_nat (length (trim (collapse_ws s))) ->
  shorten (Some s) n
  = strip_trailing_punct
      (let slice0 := take (Z.to_nat (Z.max 0 (n - 1))) (trim (collapse_ws s)) in
       if 60 <? lastIndexOf space slice0
       then take (Z.to_nat (lastIndexOf space slice0)) slice0
       else slice0)
    ++ [ellipsis].
Proof.
  intros Hs Hn. unfold shorten. destruct s as [|c r]; [congruence|].
  cbn [truthy negb String_of].
  destruct (_ <=? n) eqn:E; [apply Z.leb_le in E; lia|].
  rewrite slice_from_start by lia. cbv zeta.
  destruct (60 <? _) eqn:E60; [|reflexivity].
  apply Z.ltb_lt in E60. now rewrite slice_from_start by lia.
Qed.

End Truncation.

(** The parts of a truncated result. *)
Lemma shorten_truncated_parts (s : jsstring) (n : Z) :
  s <> [] -> n < Z.of_nat (length (trim (collapse_ws s))) ->
  exists body rest,
    shorten (Some s) n = body ++ [ellipsis]
    /\ trim (collapse_ws s) = body ++ rest
    /\ Z.of_nat (length body) <= Z.max 0 (n - 1)
    /\ forall b c, body = b ++ [c] -> is_trailing_punct c = false.
Proof.
  intros Hs Hn. rewrite (shorten_truncated_eq s n Hs Hn). cbv zeta.
  set (clean := trim (collapse_ws s)) in *.
  set (slice0 := take (Z.to_nat (Z.max 0 (n - 1))) clean).
  set (slice1 := if 60 <? lastIndexOf space slice0
                 then take (Z.to_nat (lastIndexOf space slice0)) slice0
                 else slice0).
  unfold strip_trailing_punct.
  destruct (drop_while_end_split is_trailing_punct slice1) as (k & Ek & _).
  assert (H1 : exists k1, slice0 = slice1 ++ k1).
  { subst slice1. destruct (60 <? _).
    - eexists. symmetry. apply take_drop.
    - exists []. now rewrite app_nil_r. }
  destruct H1 as (k1 & Ek1).
  exists (drop_while_end is_trailing_punct slice1),
         (k ++ k1 ++ drop (Z.to_nat (Z.max 0 (n - 1))) clean).
  split; [reflexivity|]. split; [|split].
  - rewrite <- (take_drop (Z.to_nat (Z.max 0 (n - 1))) clean) at 1.
    fold slice0. rewrite Ek1, Ek at 1. now rewrite <- !app_assoc.
  - assert (L0 : (length slice0 <= Z.to_nat (Z.max 0 (n - 1)))%nat)
      by (subst slice0; rewrite length_take; lia).
    apply (f_equal (@length N)) in Ek1, Ek. rewrite length_app in Ek1, Ek. lia.
  - intros b c E. now apply drop_while_end_last in E.
Qed.

(** X1. A text that is longer than the limit once normalised comes back
    as a prefix of the normalised text followed by the ellipsis; the
    prefix has at most [max 0 (n - 1)] units and does not end with one of
    the punctuation marks that are stripped. *)
Theorem shorten_truncated_shape (s : jsstring) (n : Z) :
  s <> [] -> n < Z.of_nat (length (trim (collapse_ws s))) ->
  exists body rest,
    shorten (Some s) n = body ++ [ellipsis]
    /\ trim (collapse_ws s) = body ++ rest
    /\ Z.of_nat (length body) <= Z.max 0 (n - 1)
    /\ forall b c, body = b ++ [c] -> is_trailing_punct c = false.
Proof. apply shorten_truncated_parts. Qed.

Lemma shorten_truncated_shape_witness :
  exists body rest,
    shorten (Some (str "Forty editable  slides, and notes.")) 16 = body ++ [ellipsis]
    /\ trim (collapse_ws (str "Forty editable  slides, and notes.")) = body ++ rest
    /\ Z.of_nat (length body) <= Z.max 0 (16 - 1)
    /\ forall b c, body = b ++ [c] -> is_trailing_punct c = false.
Proof.
  apply (shorten_truncated_shape (str "Forty editable  slides, and notes.") 16).
  - discriminate.
  - vm_compute. reflexivity.
Defined.

(** X2. When the first [n - 1] units of the normalised text hold a space
    beyond index 60, the cut is made at such a space: what is kept, with
    the punctuation stripped from its end, is followed by a space in the
    normalised text, so no word is cut through. *)
Theorem shorten_cuts_at_space (s : jsstring) (n : Z) (i : nat) :
  s <> [] -> n < Z.of_nat (length (trim (collapse_ws s))) ->
  60 < Z.of_nat i < n - 1 ->
  trim (collapse_ws s) !! i = Some space ->
  exists body stripped rest,
    shorten (Some s) n = body ++ [ellipsis]
    /\ trim (collapse_ws s) = body ++ stripped ++ space :: rest
    /\ Forall (fun c => is_trailing_punct c = true) stripped
    /\ Z.of_nat i <= Z.of_nat (length (body ++ stripped)) < n - 1.
Proof.
  intros Hs Hn Hi Hsp. rewrite (shorten_truncated_eq s n Hs Hn). cbv zeta.
  set (clean := trim (collapse_ws s)) in *.
  set (slice0 := take (Z.to_nat (Z.max 0 (n - 1))) clean).
  assert (Hsp0 : slice0 !! i = Some space).
  { subst slice0. rewrite lookup_take_lt by lia. exact Hsp. }
  pose proof (lastIndexOf_from_ge space slice0 0 (-1) i Hsp0) as Hge.
  fold (lastIndexOf space slice0) in Hge.
  pose proof (lastIndexOf_bounds space slice0) as Hb.
  assert (L0 : (length slice0 <= Z.to_nat (Z.max 0 (n - 1)))%nat)
    by (subst slice0; rewrite length_take; lia).
  assert (E60 : (60 <? lastIndexOf space slice0) = true) by (apply Z.ltb_lt; lia).
  rewrite E60.
  pose proof (lastIndexOf_lookup space slice0 ltac:(lia)) as Hl.
  set (ls := Z.to_nat (lastIndexOf space slice0)) in *.
  unfold strip_trailing_punct.
  destruct (drop_while_end_split is_trailing_punct (take ls slice0))
    as (k & Ek & Fk).
  apply take_drop_middle in Hl.
  exists (drop_while_end is_trailing_punct (take ls slice0)), k,
         (drop (S ls) slice0 ++ drop (Z.to_nat (Z.max 0 (n - 1))) clean).
  split; [reflexivity|]. split; [|split; [exact Fk|]].
  - rewrite <- (take_drop (Z.to_nat (Z.max 0 (n - 1))) clean) at 1.
    fold slice0. rewrite <- Hl at 1. rewrite Ek at 1.
    now rewrite <- !app_assoc.
  - rewrite <- Ek, length_take. lia.
Qed.

Lemma shorten_cuts_at_space_witness :
  exists body stripped rest,
    shorten (Some (str "Professional presentation template with modern, editable slides, - and speaker notes for every slide.")) 80
    = body ++ [ellipsis]
    /\ trim (collapse_ws (str "Professional presentation template with modern, editable slides, - and speaker notes for every slide."))
       = body ++ stripped ++ space :: rest
    /\ Forall (fun c => is_trailing_punct c = true) stripped
    /\ Z.of_nat 66 <= Z.of_nat (length (body ++ stripped)) < 80 - 1.
Proof.
  apply (shorten_cuts_at_space
           (str "Professional presentation template with modern, editable slides, - and speaker notes for every slide.")
           80 66).
  - discriminate.
  - vm_compute. reflexivity.
  - lia.
  - reflexivity.
Defined.

Section SingleSpacing.

Lemma singly_spaced_weaken (s : jsstring) :
  singly_spaced true s = true -> singly_spaced false s = true.
Proof.
  destruct s as [|c r]; [reflexivity|]. cbn [singly_spaced].
  destruct (is_space c); [|auto]. cbn [negb]. rewrite andb_false_r. discriminate.
Qed.

Lemma singly_spaced_collapse (b : bool) (s : jsstring) :
  singly_spaced b (collapse_go b s) = true.
Proof.
  revert b. induction s as [|c r IH]; intros b; [reflexivity|].
  cbn [collapse_go]. destruct (is_space c) eqn:Hc.
  - destruct b; [apply IH|]. cbn [singly_spaced].
    change (is_space space) with true. cbv iota.
    rewrite N.eqb_refl. cbn [negb andb]. apply IH.
  - cbn [singly_spaced]. rewrite Hc. apply IH.
Qed.

Lemma singly_spaced_suffix (b : bool) (k t : jsstring) :
  singly_spaced b (k ++ t) = true -> singly_spaced false t = true.
Proof.
  revert b. induction k as [|c k IH]; intros b; cbn [app].
  - destruct b; [apply singly_spaced_weaken|auto].
  - cbn [singly_spaced]. destruct (is_space c); [|apply IH].
    intros H. apply andb_prop in H as [_ H]. now apply IH in H.
Qed.

Lemma singly_spaced_prefix (b : bool) (t k : jsstring) :
  singly_spaced b (t ++ k) = true -> singly_spaced b t = true.
Proof.
  revert b. induction t as [|c t IH]; intros b; cbn [app]; [reflexivity|].
  cbn [singly_spaced]. destruct (is_space c); [|apply IH].
  intros H. apply andb_prop in H as [H1 H]. rewrite H1. now apply IH in H.
Qed.

Lemma singly_spaced_snoc (b : bool) (t : jsstring) (e : N) :
  is_space e = false -> singly_spaced b t = true ->
  singly_spaced b (t ++ [e]) = true.
Proof.
  intros He. revert b. induction t as [|c t IH]; intros b; cbn [app singly_spaced].
  - now rewrite He.
  - destruct (is_space c); [|apply IH].
    intros H. apply andb_prop in H as [H1 H]. rewrite H1. now apply IH.
Qed.

Lemma singly_spaced_fixed (b : bool) (s : jsstring) :
  singly_spaced b s = true -> collapse_go b s = s.
Proof.
  revert b. induction s as [|c r IH]; intros b; [reflexivity|].
  cbn [singly_spaced collapse_go]. destruct (is_space c).
  - intros H. apply andb_prop in H as [H H2]. apply andb_prop in H as [H0 H1].
    apply N.eqb_eq in H0. subst c. destruct b; [discriminate|].
    now rewrite (IH true H2).
  - intros H. now rewrite (IH false H).
Qed.

Lemma singly_spaced_trim_collapse (s : jsstring) :
  singly_spaced false (trim (collapse_ws s)) = true.
Proof.
  unfold trim, collapse_ws.
  pose proof (singly_spaced_collapse false s) as H.
  destruct (drop_while_split is_space (collapse_go false s)) as (k & E & _).
  rewrite E in H. apply singly_spaced_suffix in H.
  destruct (drop_while_end_split is_space (drop_while is_space (collapse_go false s)))
    as (k' & E' & _).
  rewrite E' in H. now apply singly_spaced_prefix in H.
Qed.

Lemma no_edge_space_trim (s : jsstring) : no_edge_space (trim s) = true.
Proof.
  unfold trim. set (d := drop_while is_space s).
  destruct (drop_while_end_split is_space d) as (k & E & _).
  destruct (drop_while_end is_space d) as [|c t] eqn:Et; [reflexivity|].
  cbn [no_edge_space].
  assert (Hc : is_space c = false).
  { subst d. rewrite E in *. cbn [app] in E.
    now apply (drop_while_head is_space s c (t ++ k)). }
  rewrite Hc. cbn [negb andb].
  destruct (exists_last (l := c :: t) ltac:(discriminate)) as (b & l & El).
  rewrite El, last_last. rewrite El in Et.
  now rewrite (drop_while_end_last is_space d b l Et).
Qed.

Lemma no_edge_space_fixed (s : jsstring) : no_edge_space s = true -> trim s = s.
Proof.
  destruct s as [|c r]; [reflexivity|]. cbn [no_edge_space].
  intros H. apply andb_prop in H as [Hc Hl].
  apply negb_true_iff in Hc, Hl.
  unfold trim. cbn [drop_while]. rewrite Hc. unfold drop_while_end.
  destruct (exists_last (l := c :: r) ltac:(discriminate)) as (b & l & El).
  rewrite El in *. rewrite last_last in Hl.
  rewrite rev_app_distr. cbn [rev app drop_while]. rewrite Hl.
  change (l :: rev b) with (rev [l] ++ rev b).
  now rewrite <- rev_app_distr, rev_involutive.
Qed.

Lemma ellipsis_not_space : is_space ellipsis = false.
Proof. reflexivity. Qed.

(** Every result is spaced singly and has no white space at its edges. *)
Lemma shorten_normal (text : jsval) (n : Z) :
  singly_spaced false (shorten text n) = true
  /\ no_edge_space (shorten text n) = true.
Proof.
  destruct text as [[|c0 r0]|]; [now split| |now split].
  set (s := c0 :: r0).
  destruct (Z.le_gt_cases (Z.of_nat (length (trim (collapse_ws s)))) n) as [Hle|Hgt].
  - unfold shorten. cbn [truthy negb String_of]. fold s.
    apply Z.leb_le in Hle. rewrite Hle.
    split; [apply singly_spaced_trim_collapse|apply no_edge_space_trim].
  - destruct (shorten_truncated_parts s n ltac:(discriminate) ltac:(lia))
      as (body & rest & -> & E & _ & _).
    pose proof (singly_spaced_trim_collapse s) as H1.
    pose proof (no_edge_space_trim (collapse_ws s)) as H2.
    rewrite E in H1, H2. split.
    + apply singly_spaced_snoc; [reflexivity|].
      now apply singly_spaced_prefix in H1.
    + destruct body as [|c b]; [reflexivity|].
      cbn [app no_edge_space] in *.
      apply andb_prop in H2 as [Hc _]. rewrite Hc. cbn [andb].
      change (c :: b ++ [ellipsis]) with ((c :: b) ++ [ellipsis]).
      now rewrite last_last.
Qed.

End SingleSpacing.

(** X3. In every result of [shorten], each white-space unit is the space
    U+0020, no two are adjacent, and neither the first nor the last unit
    is white space. *)
Theorem shorten_spaced_singly (text : jsval) (n : Z) :
  singly_spaced false (shorten text n) = true
  /\ no_edge_space (shorten text n) = true.
Proof. apply shorten_normal. Qed.

(** X4. Shortening twice is shortening once, for every limit. *)
Theorem shorten_idempotent (text : jsval) (n : Z) :
  shorten (Some (shorten text n)) n = shorten text n.
Proof.
  destruct (shorten_normal text n) as [H1 H2].
  destruct text as [[|c0 r0]|]; [reflexivity| |reflexivity].
  set (s := c0 :: r0) in *.
  assert (Hlen : Z.of_nat (length (shorten (Some s) n)) <= n
                 \/ (n <= 0 /\ shorten (Some s) n = [ellipsis])).
  { destruct (Z.le_gt_cases (Z.of_nat (length (trim (collapse_ws s)))) n) as [Hle|Hgt].
    - left. unfold shorten. cbn [truthy negb String_of]. fold s.
      pose proof Hle as Hle'. apply Z.leb_le in Hle'. now rewrite Hle'.
    - destruct (shorten_truncated_parts s n ltac:(discriminate) ltac:(lia))
        as (body & rest & -> & _ & Hb & _).
      destruct (Z.le_gt_cases n 0).
      + right. split; [assumption|].
        destruct body; [reflexivity|cbn [length] in Hb; lia].
      + left. rewrite length_app. cbn [length]. lia. }
  destruct Hlen as [Hlen|[Hn E]].
  - destruct (shorten (Some s) n) as [|c r] eqn:E; [reflexivity|].
    unfold shorten at 1. cbn [truthy negb String_of].
    unfold collapse_ws. rewrite (singly_spaced_fixed false _ H1).
    rewrite (no_edge_space_fixed _ H2).
    apply Z.leb_le in Hlen. now rewrite Hlen.
  - rewrite E. unfold shorten. cbn [truthy negb String_of].
    change (trim (collapse_ws [ellipsis])) with [ellipsis].
    destruct (_ <=? n) eqn:E1; [apply Z.leb_le in E1; cbn in E1; lia|].
    rewrite Z.max_l by lia. reflexivity.
Qed.

(* ===================================================================== *)
(** ** Link collection: columns and cleanliness *)
(* ===================================================================== *)

Section CollectedLinks.

Lemma trim_trim (s : jsstring) : trim (trim s) = trim s.
Proof. apply no_edge_space_fixed, no_edge_space_trim. Qed.

Lemma first_seen_length (l : list jsstring) :
  (length (first_seen l) <= length l)%nat.
Proof.
  induction l as [|x l IH]; [reflexivity|]. cbn [first_seen length].
  pose proof (List.filter_length_le
                (fun y => negb (bool_decide (y = x))) (first_seen l)).
  lia.
Qed.

Lemma or_str_cell (cell : jsval) (v : jsstring) (rest : jsval) :
  cell = Some v -> v <> [] -> js_or cell rest = Some v.
Proof. intros -> Hv. destruct v; [congruence|reflexivity]. Qed.

Lemma js_or_passed_over (cell rest : jsval) :
  passed_over cell -> js_or cell rest = rest.
Proof. intros [-> | ->]; reflexivity. Qed.

End CollectedLinks.

(** X5. The four columns are read in the order [Link], [link], [URL],
    [url]: the first one whose cell is a non-empty string gives the link,
    trimmed, whatever the later ones hold; a missing or empty cell is
    passed over. A cell of white space only is not passed over: the row
    then yields the empty string, even when a later column holds a URL. *)
Theorem link_column_priority (r : gmap jsstring jsstring) (v : jsstring) :
  v <> [] ->
  (r !! str "Link" = Some v -> link_of_row r = trim v)
  /\ (passed_over (r !! str "Link") -> r !! str "link" = Some v ->
      link_of_row r = trim v)
  /\ (passed_over (r !! str "Link") -> passed_over (r !! str "link") ->
      r !! str "URL" = Some v -> link_of_row r = trim v)
  /\ (passed_over (r !! str "Link") -> passed_over (r !! str "link") ->
      passed_over (r !! str "URL") -> r !! str "url" = Some v ->
      link_of_row r = trim v)
  /\ (r !! str "Link" = Some v -> trim v = [] ->
      links_of_rows [r] = []).
Proof.
  intros Hv. unfold link_of_row.
  assert (Hs : forall d, or_str (Some v) d = v) by (destruct v; [congruence|reflexivity]).
  repeat split.
  - intros H. rewrite (or_str_cell _ v _ H Hv).
    rewrite !(or_str_cell (Some v) v) by (reflexivity || assumption).
    now rewrite Hs.
  - intros H1 H. rewrite (js_or_passed_over _ _ H1), (or_str_cell _ v _ H Hv).
    rewrite !(or_str_cell (Some v) v) by (reflexivity || assumption).
    now rewrite Hs.
  - intros H1 H2 H. rewrite (js_or_passed_over _ _ H1), (js_or_passed_over _ _ H2).
    rewrite (or_str_cell _ v _ H Hv). now rewrite Hs.
  - intros H1 H2 H3 H.
    rewrite (js_or_passed_over _ _ H1), (js_or_passed_over _ _ H2),
      (js_or_passed_over _ _ H3), H.
    now rewrite Hs.
  - intros H Ht. unfold links_of_rows, link_of_row. cbn [List.map].
    rewrite (or_str_cell _ v _ H Hv).
    rewrite !(or_str_cell (Some v) v) by (reflexivity || assumption).
    rewrite Hs, Ht. reflexivity.
Qed.

Lemma link_column_priority_witness :
  link_of_row (<[ str "url" := str "https://b.example/" ]>
                 {[ str "link" := str " https://a.example/ " ]})
  = str "https://a.example/"
  /\ links_of_rows [ <[ str "URL" := str "https://b.example/" ]>
                       {[ str "Link" := str "  " ]} ] = [].
Proof.
  split.
  - destruct (link_column_priority
                (<[ str "url" := str "https://b.example/" ]>
                   {[ str "link" := str " https://a.example/ " ]})
                (str " https://a.example/ ") ltac:(discriminate))
      as (_ & H & _).
    rewrite H; [reflexivity|left; reflexivity|reflexivity].
  - destruct (link_column_priority
                (<[ str "URL" := str "https://b.example/" ]>
                   {[ str "Link" := str "  " ]})
                (str "  ") ltac:(discriminate))
      as (_ & _ & _ & _ & H).
    apply H; reflexivity.
Defined.

(** X6. There are at most as many links as rows, and every collected
    link is a non-empty string without white space at either end. *)
Theorem collected_links_clean (rows : list (gmap jsstring jsstring)) :
  (length (links_of_rows rows) <= length rows)%nat
  /\ forall x, In x (links_of_rows rows) ->
       x <> [] /\ trim x = x /\ no_edge_space x = true.
Proof.
  unfold links_of_rows. rewrite Array_from_Set_first_seen. split.
  - etransitivity; [apply first_seen_length|].
    etransitivity; [apply List.filter_length_le|]. now rewrite length_map.
  - intros x Hx. apply first_seen_In, List.filter_In in Hx as [Hx Ht].
    apply List.in_map_iff in Hx as (r & <- & _).
    unfold link_of_row in *. split; [|split].
    + intros E. rewrite E in Ht. discriminate.
    + apply trim_trim.
    + apply no_edge_space_trim.
Qed.

Lemma collected_links_clean_witness :
  trim (str "https://a.example/") = str "https://a.example/".
Proof.
  destruct (collected_links_clean
              [ {[ str "Link" := str "  https://a.example/ " ]} ]) as [_ H].
  apply (H (str "https://a.example/")). vm_compute. auto.
Defined.

(* ===================================================================== *)
(** ** What the extractors choose *)
(* ===================================================================== *)

Section Choices.

Lemma includes_app_l (p a s : jsstring) :
  includes p s = true -> includes p (a ++ s) = true.
Proof.
  intros H. induction a as [|x a IH]; [exact H|].
  cbn [app includes]. rewrite IH. apply orb_true_r.
Qed.

Lemma includes_nil_false (c : N) (p : jsstring) : includes (c :: p) [] = false.
Proof. reflexivity. Qed.

Lemma fix_protocol_keeps_pattern (u : jsstring) :
  uploads_or_absolute u = true -> uploads_or_absolute (fix_protocol u) = true.
Proof.
  intros H. unfold fix_protocol.
  destruct (truthy_str u && startsWith (str "//") u) eqn:E; [|exact H].
  apply andb_prop in E as [_ E].
  change (str "//") with [47%N; 47%N] in E.
  destruct u as [|a [|b u]]; cbn [startsWith] in E;
    [discriminate|rewrite andb_false_r in E; discriminate|].
  apply andb_prop in E as [Ea E]. apply andb_prop in E as [Eb _].
  apply N.eqb_eq in Ea, Eb. subst a b.
  unfold uploads_or_absolute. apply orb_true_iff. right. reflexivity.
Qed.

Lemma fix_protocol_absolute (u : jsstring) :
  startsWith (str "//") (fix_protocol u) = false.
Proof.
  unfold fix_protocol.
  destruct (truthy_str u) eqn:Et; cbn [andb].
  - destruct (startsWith (str "//") u) eqn:E; [reflexivity|exact E].
  - destruct u; [reflexivity|discriminate].
Qed.

Lemma about_walk_heading (g : nat) (txt : jsstring) (a b : list Element) (h : Element) :
  is_heading_tag (tagName h) = true ->
  about_walk g txt (a ++ h :: b) = about_walk g txt a.
Proof.
  intros Hh. revert g txt. induction a as [|x a IH]; intros g txt; cbn [app about_walk].
  - rewrite Hh. now destruct (g <? 20)%nat.
  - destruct (g <? 20)%nat; [|reflexivity].
    destruct (is_heading_tag (tagName x)); [reflexivity|apply IH].
Qed.

Lemma about_walk_guard (g : nat) (txt : jsstring) (sibs : list Element) :
  about_walk g txt sibs = about_walk g txt (take (20 - g) sibs).
Proof.
  revert g txt. induction sibs as [|x r IH]; intros g txt.
  - now rewrite take_nil.
  - cbn [about_walk]. destruct (g <? 20)%nat eqn:E.
    + apply Nat.ltb_lt in E.
      replace (20 - g)%nat with (S (20 - S g)) by lia.
      cbn [take about_walk]. apply Nat.ltb_lt in E. rewrite E.
      destruct (is_heading_tag (tagName x)); [reflexivity|apply IH].
    + apply Nat.ltb_ge in E. replace (20 - g)%nat with 0%nat by lia. reflexivity.
Qed.

Lemma about_walk_text (g : nat) (txt : jsstring) (sibs : list Element) :
  (g + length sibs <= 20)%nat ->
  Forall (fun el => is_heading_tag (tagName el) = false) sibs ->
  about_walk g txt sibs
  = txt ++ flat_map (fun el => space :: textContent el) sibs.
Proof.
  intros Hl F. revert g txt Hl. induction F as [|x r Hx F IH]; intros g txt Hl.
  - cbn. now rewrite app_nil_r.
  - cbn [about_walk flat_map length] in *.
    assert (E : (g <? 20)%nat = true) by (apply Nat.ltb_lt; lia).
    rewrite E, Hx, IH by lia. rewrite str_or_empty, <- app_assoc. reflexivity.
Qed.

Lemma split_segments (c : N) (s : jsstring) :
  Forall (fun seg => ~ In c seg) (split c s).
Proof.
  induction s as [|x r IH]; cbn [split]; [repeat constructor; auto|].
  destruct (N.eqb_spec x c) as [->|Hx]; [constructor; auto|].
  destruct (split c r) as [|h t]; [repeat constructor; cbn; intuition|].
  inversion IH as [|? ? Hh Ht]; subst. constructor; [|assumption].
  cbn [In]. intuition.
Qed.

Lemma Forall_last {A} (P : A -> Prop) (l : list A) (d : A) :
  P d -> Forall P l -> P (List.last l d).
Proof.
  intros Hd F. induction F as [|x l Hx F IH]; [exact Hd|].
  destruct l; [exact Hx|exact IH].
Qed.

Lemma replace_class_In (p : N -> bool) (by_ s : jsstring) (y : N) :
  In y (replace_class p by_ s) -> In y by_ \/ (In y s /\ p y = false).
Proof.
  unfold replace_class. rewrite in_flat_map. intros (x & Hx & Hy).
  destruct (p x) eqn:E; [now left|].
  destruct Hy as [<-|[]]. now right.
Qed.

End Choices.

(** X7. The title of the static extractor is the trimmed text of the
    first [h1] when that is not empty, whatever [og:title] holds; else
    the [og:title] content as it is, untrimmed; else the trimmed text of
    the [title] element. *)
Theorem extract_static_title (d : Document) :
  (trim (h1_first_text d) <> [] ->
     m_title (extract_static d) = trim (h1_first_text d))
  /\ (forall c r, trim (h1_first_text d) = [] -> og_title d = Some (c :: r) ->
        m_title (extract_static d) = c :: r)
  /\ (trim (h1_first_text d) = [] -> truthy (og_title d) = false ->
        m_title (extract_static d) = trim (title_text d)).
Proof.
  unfold extract_static. cbn [m_title]. repeat split.
  - intros H. destruct (trim (h1_first_text d)); [congruence|reflexivity].
  - intros c r -> ->. reflexivity.
  - intros E Ho. rewrite E. unfold js_or. cbn [truthy]. rewrite Ho.
    destruct (trim (title_text d)); reflexivity.
Qed.

Lemma extract_static_title_witness :
  m_title (extract_static blank_description_document) = str "Deck"
  /\ m_title (extract_static og_document) = str "Deck".
Proof.
  split.
  - destruct (extract_static_title blank_description_document) as (H & _).
    rewrite H; [reflexivity|discriminate].
  - destruct (extract_static_title og_document) as (_ & H & _).
    apply (H 68%N (str "eck")); reflexivity.
Defined.

(** X8. Without an [og:image] meta and an [image_src] link, the image of
    the static extractor is empty or comes from an [img]: it then holds
    the uploads path or starts with [http://] or [https://], so a
    relative source is never taken. *)
Theorem extract_static_img_scan (d : Document) :
  truthy (og_image d) = false -> truthy (image_src d) = false ->
  m_image (extract_static d) = []
  \/ uploads_or_absolute (m_image (extract_static d)) = true.
Proof.
  intros Ho Hl. unfold extract_static. cbn [m_image].
  unfold js_or. rewrite Ho, Hl.
  destruct (List.find uploads_or_absolute _) as [u|] eqn:E; [|now left].
  apply List.find_some in E as [_ Hu].
  destruct u as [|c u]; [discriminate|]. cbn [or_str].
  right. now apply fix_protocol_keeps_pattern.
Qed.

Lemma extract_static_img_scan_witness :
  m_image (extract_static
             {| h1_first_text := []; og_title := None; title_text := [];
                about_text := []; meta_description := None;
                og_description := None; og_image := None; image_src := Some [];
                imgs := [(Some (str "/img/logo.png"), None);
                         (None, Some (str "//cdn.example/wp-content/uploads/deck.png"))] |})
  = str "https://cdn.example/wp-content/uploads/deck.png".
Proof.
  destruct (extract_static_img_scan
              {| h1_first_text := []; og_title := None; title_text := [];
                 about_text := []; meta_description := None;
                 og_description := None; og_image := None; image_src := Some [];
                 imgs := [(Some (str "/img/logo.png"), None);
                          (None, Some (str "//cdn.example/wp-content/uploads/deck.png"))] |}
              eq_refl eq_refl) as [H|H]; reflexivity.
Defined.

(** X9. The image callback of the rendered extractor prefers the uploads
    path: when some [img] has it in its [src] (or, failing that, in its
    [data-src]), the result has it, even when an [img] before it has an
    absolute URL; and the result is always empty or of one of the two
    kinds. *)
Theorem pick_image_prefers_uploads (els : list Element) :
  (forall el, In el els ->
     includes (str "wp-content/uploads")
       (or_str (js_or (attr_src el) (attr_data_src el)) []) = true ->
     includes (str "wp-content/uploads") (pick_image els) = true)
  /\ (pick_image els = [] \/ uploads_or_absolute (pick_image els) = true).
Proof.
  unfold pick_image.
  set (srcs := List.map (fun el => or_str (js_or (attr_src el) (attr_data_src el)) []) els).
  split.
  - intros el Hin Hel.
    destruct (List.find (includes (str "wp-content/uploads")) srcs) as [u|] eqn:E.
    + apply List.find_some in E as [_ Hu].
      destruct u as [|c u]; [discriminate|]. exact Hu.
    + pose proof (List.find_none _ _ E _ (List.in_map _ els el Hin)) as Hn.
      cbv beta in Hn. congruence.
  - destruct (List.find (includes (str "wp-content/uploads")) srcs) as [u|] eqn:E.
    + apply List.find_some in E as [_ Hu].
      destruct u as [|c u]; [discriminate|]. right. cbn [js_or truthy or_str].
      unfold uploads_or_absolute. now rewrite Hu.
    + cbn [js_or truthy].
      destruct (List.find (fun u => _ || _) srcs) as [u|] eqn:E2; [|now left].
      apply List.find_some in E2 as [_ Hu].
      destruct u as [|c u]; [discriminate|]. right. cbn [or_str].
      unfold uploads_or_absolute. rewrite <- orb_assoc, Hu. apply orb_true_r.
Qed.

Lemma pick_image_prefers_uploads_witness :
  includes (str "wp-content/uploads")
    (pick_image [mkElement (str "IMG") [] [] (Some (str "https://cdn.example/banner.png")) None;
                 mkElement (str "IMG") [] [] None (Some (str "/wp-content/uploads/deck.png"))])
  = true.
Proof.
  destruct (pick_image_prefers_uploads
              [mkElement (str "IMG") [] [] (Some (str "https://cdn.example/banner.png")) None;
               mkElement (str "IMG") [] [] None (Some (str "/wp-content/uploads/deck.png"))])
    as [H _].
  apply (H (mkElement (str "IMG") [] [] None (Some (str "/wp-content/uploads/deck.png"))));
    [cbn; auto|reflexivity].
Defined.

(** X10. The walk after the About heading stops at the first element
    whose tag name holds H1 to H4 and ignores what follows it, reads at
    most twenty elements, and otherwise gives the text contents in
    order, a space before each. *)
Theorem about_walk_bounds (sibs : list Element) :
  (forall a h b, sibs = a ++ h :: b -> is_heading_tag (tagName h) = true ->
     about_walk 0 [] sibs = about_walk 0 [] a)
  /\ about_walk 0 [] sibs = about_walk 0 [] (take 20 sibs)
  /\ (Forall (fun el => is_heading_tag (tagName el) = false) (take 20 sibs) ->
      about_walk 0 [] sibs
      = flat_map (fun el => space :: textContent el) (take 20 sibs)).
Proof.
  split; [|split].
  - intros a h b -> Hh. now apply about_walk_heading.
  - apply (about_walk_guard 0).
  - intros F. rewrite (about_walk_guard 0). change (20 - 0)%nat with 20%nat.
    apply (about_walk_text 0 []); [|exact F].
    rewrite length_take. lia.
Qed.

Lemma about_walk_bounds_witness :
  about_walk 0 [] [mkElement (str "P") (str "Forty slides.") [] None None;
                   mkElement (str "H3") (str "Reviews") [] None None;
                   mkElement (str "P") (str "Great.") [] None None]
  = str " Forty slides.".
Proof.
  destruct (about_walk_bounds
              [mkElement (str "P") (str "Forty slides.") [] None None;
               mkElement (str "H3") (str "Reviews") [] None None;
               mkElement (str "P") (str "Great.") [] None None]) as (H & _).
  rewrite (H [mkElement (str "P") (str "Forty slides.") [] None None]
             (mkElement (str "H3") (str "Reviews") [] None None)
             [mkElement (str "P") (str "Great.") [] None None]);
    reflexivity.
Defined.

(** X11. The title derived from a URL holds no slash, no dash and no
    underscore. *)
Theorem title_from_url_clean (u : jsstring) (c : N) :
  In c (title_from_url u) -> c <> 47%N /\ c <> 45%N /\ c <> 95%N.
Proof.
  unfold title_from_url, pop. intros H.
  apply replace_class_In in H as [[<-|[]]|[Hin Hp]].
  - repeat split; discriminate.
  - pose proof (Forall_last (fun seg => ~ In 47%N seg) (split 47 u) []
                  (fun F => F) (split_segments 47 u)) as Hs.
    unfold is_dash_or_underscore in Hp. apply orb_false_elim in Hp as [H1 H2].
    apply N.eqb_neq in H1, H2. repeat split; try assumption.
    intros ->. contradiction.
Qed.

Lemma title_from_url_clean_witness :
  title_from_url (str "https://a.example/shop/pitch-deck_v2") = str "pitch deck v2"
  /\ 32%N <> 47%N.
Proof.
  split; [reflexivity|].
  apply (title_from_url_clean (str "https://a.example/shop/pitch-deck_v2") 32%N).
  vm_compute. do 5 right. left. reflexivity.
Defined.

(** X12. The four replacements of [esc] amount to one pass that maps each
    unit on its own, so the ampersand of an entity is not escaped again
    and escaping distributes over concatenation. *)
Theorem html_esc_single_pass (a b : jsstring) :
  html_esc a = flat_map esc_unit a
  /\ html_esc (a ++ b) = html_esc a ++ html_esc b.
Proof.
  assert (H : forall s, html_esc s = flat_map esc_unit s).
  { induction s as [|c s IH]; [reflexivity|].
    rewrite html_esc_cons, IH. reflexivity. }
  split; [apply H|]. rewrite !H. apply flat_map_app.
Qed.

(* ===================================================================== *)
(** ** What the extractors return, and how a page is used *)
(* ===================================================================== *)

Section ReturnedValues.
Context {R : Runtime}.

Lemma bind_assoc {A B C} (c : M A) (k : A -> M B) (h : B -> M C) (s : state) :
  bind (bind c k) h s = bind c (fun a => bind (k a) h) s.
Proof. unfold bind. now destruct (c s) as [[a|e] s1]. Qed.

Lemma ensures_ret {A} (Q : A -> Prop) (a : A) : Q a -> ensures Q (ret a).
Proof. intros H s a' s' E. injection E as <- _. exact H. Qed.

Lemma ensures_bind {A B} (Q : B -> Prop) (c : M A) (k : A -> M B) :
  (forall a, ensures Q (k a)) -> ensures Q (bind c k).
Proof.
  intros H s b s' E. apply bind_inv_Return in E as (a & s1 & _ & E).
  exact (H a _ _ _ E).
Qed.

Lemma ensures_try_catch {A} (Q : A -> Prop) (body : M A) (h : exn -> M A) :
  ensures Q body -> (forall e, ensures Q (h e)) -> ensures Q (try_catch body h).
Proof.
  intros Hb Hh s a s' E. unfold try_catch in E.
  destruct (body s) as [[a0|e] s1] eqn:Eb.
  - injection E as <- <-. exact (Hb _ _ _ Eb).
  - exact (Hh e _ _ _ E).
Qed.

Lemma well_formed_fallback : well_formed_meta fallback_meta.
Proof. split; [vm_compute; lia|reflexivity]. Qed.

Lemma shorten_default_length (text : jsval) :
  (length (shorten_default text) <= 121)%nat.
Proof. pose proof (shorten_length_max text 120). unfold shorten_default. lia. Qed.

Lemma well_formed_static (d : Document) : well_formed_meta (extract_static d).
Proof.
  split; cbn [extract_static m_description m_image];
    [apply shorten_default_length|apply fix_protocol_absolute].
Qed.

Lemma scrapeWithCheerio_ensures u : ensures well_formed_meta (scrapeWithCheerio u).
Proof.
  unfold scrapeWithCheerio. apply ensures_try_catch.
  - apply ensures_bind. intros html. apply ensures_bind. intros doc.
    apply ensures_ret, well_formed_static.
  - intros _. apply ensures_ret, well_formed_fallback.
Qed.

Lemma read_page_ensures page u : ensures well_formed_meta (read_page page u).
Proof.
  unfold read_page. repeat (apply ensures_bind; intros ?).
  apply ensures_ret. split; cbn [m_description m_image];
    [apply shorten_default_length|apply fix_protocol_absolute].
Qed.

Lemma scrapeWithPuppeteer_ensures browser u :
  ensures well_formed_meta (scrapeWithPuppeteer browser u).
Proof.
  unfold scrapeWithPuppeteer, scrape_page.
  apply ensures_bind. intros page. apply ensures_bind. intros _.
  apply ensures_try_catch.
  - intros s a s' E. apply bind_inv_Return in E as (m & s1 & Hm & E).
    apply bind_inv_Return in E as (? & s2 & _ & E). injection E as <- _.
    exact (read_page_ensures page u _ _ _ Hm).
  - intros _. apply ensures_bind. intros _. apply ensures_ret, well_formed_fallback.
Qed.

Lemma extract_ensures browser u : ensures well_formed_meta (extract browser u).
Proof.
  unfold extract. intros s a s' E.
  apply bind_inv_Return in E as (meta & s1 & Hm & E).
  destruct (negb (truthy_str (m_image meta))).
  - apply bind_inv_Return in E as (? & s2 & _ & E).
    exact (scrapeWithPuppeteer_ensures browser u _ _ _ E).
  - injection E as <- _. exact (scrapeWithCheerio_ensures u _ _ _ Hm).
Qed.

(** X13. Whatever extraction returns for a link, from the static page,
    from the browser or as the fallback, has a description of at most
    121 units and an image that does not start with two slashes; so every
    item of a list that a run returns has a description of at most 121
    units. *)
Theorem descriptions_bounded :
  (forall browser u s meta s',
     extract browser u s = (Return meta, s') -> well_formed_meta meta)
  /\ (forall links s items s',
        run links s = (Return items, s') ->
        Forall (fun it => (length (description it) <= 121)%nat) items).
Proof.
  split.
  - intros browser u. apply extract_ensures.
  - intros links s items s' H. apply run_produced in H as (browser & H).
    induction H as [|u it links items Hp _ IH]; constructor; [|exact IH].
    destruct Hp as (s0 & meta & s1 & hosted & s2 & Hex & _ & ->).
    cbn [make_item description]. now apply extract_ensures in Hex as [Hd _].
Qed.

End ReturnedValues.

Lemma descriptions_bounded_witness :
  well_formed_meta (extract_static og_document).
Proof.
  destruct (@descriptions_bounded healthy) as [H _].
  apply (H 0%nat (str "https://a.example/x/") (start healthy tt) _
           (@mkState healthy tt [EHttpGet (str "https://a.example/x/")])).
  reflexivity.
Defined.

Section PageUse.
Context {R : Runtime}.

Lemma scrape_page_grows page u : emits (fun _ => True) (scrape_page page u).
Proof. unfold scrape_page, read_page, eval_or_empty. emits_auto. Qed.

(** X14. When [scrapeWithPuppeteer] returns, it has opened one page,
    configured it, and closing that page was its last call. *)
Theorem scrapeWithPuppeteer_closes_page browser u s meta s' :
  scrapeWithPuppeteer browser u s = (Return meta, s') ->
  exists page evs,
    log s' = log s ++ [ENewPage browser; ESetUserAgent page] ++ evs
                   ++ [EClosePage page].
Proof.
  intros H.
  destruct (browser_newPage browser (world s)) as [[page|e] w1] eqn:Hnew.
  2:{ unfold scrapeWithPuppeteer in H. unfold bind at 1 in H.
      rewrite perform_run, Hnew in H. discriminate. }
  destruct (page_setUserAgent page USER_AGENT w1) as [[[]|e] w2] eqn:Hua.
  2:{ unfold scrapeWithPuppeteer in H. unfold bind at 1 in H.
      rewrite perform_run, Hnew in H. cbn [fst snd] in H.
      unfold bind at 1 in H. rewrite perform_run in H. cbn [world log] in H.
      rewrite Hua in H. discriminate. }
  pose proof (scrapeWithPuppeteer_guarded browser u s page w1 w2 Hnew Hua) as G.
  cbv zeta in G. exists page.
  destruct (scrape_page page u _) as [[m|e] s3] eqn:Hbody.
  - destruct G as [G (evs & L)]. rewrite G in H. injection H as _ <-.
    exists evs. rewrite L. cbn [log]. now rewrite <- !app_assoc.
  - rewrite G in H. injection H as _ <-. cbn [log].
    destruct (scrape_page_grows page u _ _ _ Hbody) as (evs & L & _).
    exists evs. rewrite L. cbn [log]. now rewrite <- !app_assoc.
Qed.

(** X15. A navigation that fails costs four calls: the page is opened,
    configured, sent to the URL and closed; no selector is evaluated and
    the fallback is returned. *)
Theorem navigation_failure_falls_back browser u s page w1 w2 e w3 w4 :
  browser_newPage browser (world s) = (Return page, w1) ->
  page_setUserAgent page USER_AGENT w1 = (Return tt, w2) ->
  page_goto page u w2 = (Throw e, w3) ->
  page_close page w3 = (Return tt, w4) ->
  scrapeWithPuppeteer browser u s
  = (Return fallback_meta,
     {| world := w4;
        log := log s ++ [ENewPage browser; ESetUserAgent page;
                         EGoto page u; EClosePage page] |}).
Proof.
  intros Hnew Hua Hgoto Hclose.
  pose proof (scrapeWithPuppeteer_guarded browser u s page w1 w2 Hnew Hua) as G.
  cbv zeta in G.
  assert (Hbody : scrape_page page u
                    {| world := w2;
                       log := (log s ++ [ENewPage browser]) ++ [ESetUserAgent page] |}
                  = (Throw e,
                     {| world := w3;
                        log := ((log s ++ [ENewPage browser]) ++ [ESetUserAgent page])
                               ++ [EGoto page u] |})).
  { unfold scrape_page, read_page. unfold bind at 1. unfold bind at 1.
    rewrite perform_run. cbn [world log]. now rewrite Hgoto. }
  rewrite Hbody in G. rewrite G. cbn [world log]. rewrite Hclose. cbn [snd].
  now rewrite <- !app_assoc.
Qed.

(** X16. When the fields were read and closing the page then fails, the
    fields are dropped and the page is closed a second time from the
    [catch]: the outcome is that of the second closing, the fallback
    when it returns. *)
Theorem close_failure_closes_twice browser u s page w1 w2 meta s3 e w4 :
  browser_newPage browser (world s) = (Return page, w1) ->
  page_setUserAgent page USER_AGENT w1 = (Return tt, w2) ->
  read_page page u
    {| world := w2; log := (log s ++ [ENewPage browser]) ++ [ESetUserAgent page] |}
  = (Return meta, s3) ->
  page_close page (world s3) = (Throw e, w4) ->
  scrapeWithPuppeteer browser u s
  = (match page_close page w4 with
     | (Return _, _) => Return fallback_meta
     | (Throw e', _) => Throw e'
     end,
     {| world := snd (page_close page w4);
        log := log s3 ++ [EClosePage page; EClosePage page] |}).
Proof.
  intros Hnew Hua Hread Hclose.
  pose proof (scrapeWithPuppeteer_guarded browser u s page w1 w2 Hnew Hua) as G.
  cbv zeta in G.
  assert (Hbody : scrape_page page u
                    {| world := w2;
                       log := (log s ++ [ENewPage browser]) ++ [ESetUserAgent page] |}
                  = (Throw e, {| world := w4; log := log s3 ++ [EClosePage page] |})).
  { unfold scrape_page. rewrite (bind_Return _ _ _ _ _ Hread).
    unfold bind. rewrite perform_run, Hclose. reflexivity. }
  rewrite Hbody in G. rewrite G. cbn [world log].
  now rewrite <- !app_assoc.
Qed.

End PageUse.

Lemma scrapeWithPuppeteer_closes_page_witness :
  exists page evs,
    [ENewPage 0%nat; ESetUserAgent 1%nat;
     EGoto 1%nat (str "https://a.example/x/"); EClosePage 1%nat]
    = [ENewPage 0%nat; ESetUserAgent page] ++ evs ++ [EClosePage page].
Proof.
  apply (@scrapeWithPuppeteer_closes_page navigation_fails 0%nat
           (str "https://a.example/x/") (start navigation_fails tt) fallback_meta
           (@mkState navigation_fails tt
              [ENewPage 0%nat; ESetUserAgent 1%nat;
               EGoto 1%nat (str "https://a.example/x/"); EClosePage 1%nat])).
  reflexivity.
Defined.

Lemma navigation_failure_falls_back_witness :
  @scrapeWithPuppeteer navigation_fails 0%nat (str "https://a.example/x/")
    (start navigation_fails tt)
  = (Return fallback_meta,
     @mkState navigation_fails tt
       [ENewPage 0%nat; ESetUserAgent 1%nat;
        EGoto 1%nat (str "https://a.example/x/"); EClosePage 1%nat]).
Proof.
  apply (@navigation_failure_falls_back navigation_fails 0%nat
           (str "https://a.example/x/") (start navigation_fails tt) 1%nat tt tt
           (Error (str "Navigation timeout of 60000 ms exceeded")) tt tt);
    reflexivity.
Defined.

Lemma close_failure_closes_twice_witness :
  exists s3,
    @scrapeWithPuppeteer close_fails 0%nat (str "https://a.example/x/")
      (start close_fails tt)
    = (Throw (Error (str "Protocol error: Target.closeTarget")),
       @mkState close_fails tt (@log close_fails s3 ++ [EClosePage 1%nat; EClosePage 1%nat])).
Proof.
  eexists.
  eapply (@close_failure_closes_twice close_fails 0%nat
            (str "https://a.example/x/") (start close_fails tt) 1%nat tt tt
            _ _ (Error (str "Protocol error: Target.closeTarget")) tt);
    [reflexivity|reflexivity|vm_compute; reflexivity|reflexivity].
Defined.

(* ===================================================================== *)
(** ** The run as a whole: order, stops and leftovers *)
(* ===================================================================== *)

Section RunOrder.
Context {R : Runtime}.

(** X17. [writeArtifacts] writes [data.json], [products.csv] and
    [index.html] in this order and stops at the first write that throws:
    the files written before it stay written. *)
Theorem writeArtifacts_in_order (items : list GalleryItem) (s : state) :
  let w_json := EWriteFile (path_join DIST (str "data.json")) (JSON_stringify items) in
  let w_csv := EWriteFile (path_join DIST (str "products.csv"))
                          (csv_header ++ csv_body items) in
  let w_html := EWriteFile (path_join DIST (str "index.html")) (htmlTemplate items) in
  exists evs,
    log (snd (writeArtifacts items s)) = log s ++ evs
    /\ match fs_writeFileSync (path_join DIST (str "data.json"))
               (JSON_stringify items) (world s) with
       | (Throw e, _) => evs = [w_json] /\ fst (writeArtifacts items s) = Throw e
       | (Return _, w1) =>
           match fs_writeFileSync (path_join DIST (str "products.csv"))
                   (csv_header ++ csv_body items) w1 with
           | (Throw e, _) =>
               evs = [w_json; w_csv] /\ fst (writeArtifacts items s) = Throw e
           | (Return _, w2) =>
               evs = [w_json; w_csv; w_html]
               /\ fst (writeArtifacts items s)
                  = fst (fs_writeFileSync (path_join DIST (str "index.html"))
                           (htmlTemplate items) w2)
           end
       end.
Proof.
  cbv zeta. unfold writeArtifacts, write_file, bind. rewrite perform_run.
  destruct (fs_writeFileSync (path_join DIST (str "data.json")) _ (world s))
    as [[[]|e] w1]; cbn [fst snd].
  - rewrite perform_run. cbn [world log].
    destruct (fs_writeFileSync (path_join DIST (str "products.csv")) _ w1)
      as [[[]|e] w2]; cbn [fst snd].
    + rewrite perform_run. cbn [world log fst snd].
      eexists. rewrite <- !app_assoc. cbn [app]. split; [reflexivity|].
      split; reflexivity.
    + eexists. rewrite <- !app_assoc. cbn [app]. split; [reflexivity|].
      split; reflexivity.
  - eexists. split; [reflexivity|]. split; reflexivity.
Qed.

(** X18. [main] stops before the browser is launched, with nothing but
    the sheet requested, when the sheet cannot be fetched, when it cannot
    be parsed, and when it yields no link; the last case throws the
    error that says so. *)
Theorem main_stops_early (s : state) :
  let stopped w :=
    {| world := w;
       log := log s ++ [EConsole (str "Fetching sheet CSV...");
                        EHttpGet SHEET_CSV_URL] |} in
  match axios_get SHEET_CSV_URL (world s) with
  | (Throw e, w1) => main s = (Throw e, stopped w1)
  | (Return csv, w1) =>
      match csv_parse csv with
      | Throw e => main s = (Throw e, stopped w1)
      | Return rows =>
          links_of_rows rows = [] ->
          main s = (Throw (Error (str "No links found in sheet.")), stopped w1)
      end
  end.
Proof.
  cbv zeta.
  destruct (axios_get SHEET_CSV_URL (world s)) as [[csv|e] w1] eqn:Hget;
    [destruct (csv_parse csv) as [rows|e] eqn:Hp; [intros E|]|];
    unfold main, fetchSheetCsv, parseLinks, lift;
    unfold bind at 1; cbn [console_log];
    unfold bind at 1; rewrite perform_run; cbn [world log];
    rewrite Hget; cbn [fst snd]; rewrite <- ?app_assoc; try reflexivity;
    unfold bind at 1; unfold bind at 1; rewrite Hp; try reflexivity.
  unfold ret at 1. rewrite E. reflexivity.
Qed.

Lemma process_link_quiet browser u :
  emits not_browser_event (process_link browser u).
Proof.
  unfold process_link, extract, scrapeWithCheerio, scrapeWithPuppeteer,
    scrape_page, read_page, eval_or_empty, uploadToCloudinary.
  emits_auto.
Qed.

Lemma for_links_quiet browser links acc :
  emits not_browser_event (for_links browser links acc).
Proof.
  revert acc. induction links as [|u rest IH]; intros acc; cbn [for_links].
  - apply emits_ret.
  - apply emits_bind; [apply process_link_quiet|]. intros it. apply IH.
Qed.

Lemma run_launch (links : list jsstring) (s : state) :
  run links s
  = match puppeteer_launch (world s) with
    | (Return b, w1) =>
        bind (for_links b links [])
             (fun items => bind (perform (ECloseBrowser b) (browser_close b))
                                (fun _ => ret items))
             {| world := w1; log := log s ++ [ELaunch] |}
    | (Throw e, w1) => (Throw e, {| world := w1; log := log s ++ [ELaunch] |})
    end.
Proof.
  unfold run. unfold bind at 1. rewrite perform_run.
  destruct (puppeteer_launch (world s)) as [[b|e] w1]; reflexivity.
Qed.

(** X19. A run launches the browser first and once. When the loop
    completes, closing the browser is the last call and the only other
    browser call; when a link throws, the run throws with the browser
    left open. *)
Theorem run_browser_lifecycle (links : list jsstring) (s : state) :
  exists evs,
    log (snd (run links s)) = log s ++ ELaunch :: evs
    /\ match puppeteer_launch (world s) with
       | (Throw e, _) => evs = [] /\ fst (run links s) = Throw e
       | (Return b, w1) =>
           match for_links b links [] {| world := w1; log := log s ++ [ELaunch] |} with
           | (Throw e, _) =>
               fst (run links s) = Throw e /\ Forall not_browser_event evs
           | (Return items, _) =>
               exists evs', evs = evs' ++ [ECloseBrowser b]
                            /\ Forall not_browser_event evs'
           end
       end.
Proof.
  rewrite run_launch.
  destruct (puppeteer_launch (world s)) as [[b|e] w1]; cbn [fst snd].
  2:{ exists []. repeat split. }
  destruct (for_links b links [] _) as [[items|e] s2] eqn:Hloop.
  - destruct (for_links_quiet b links [] _ _ _ Hloop) as (evs' & L & F).
    cbn [log] in L.
    rewrite (bind_Return _ _ _ _ _ Hloop). unfold bind. rewrite perform_run.
    exists (evs' ++ [ECloseBrowser b]).
    destruct (browser_close b (world s2)) as [[[]|e] w3]; cbn [fst snd log];
      rewrite L, <- !app_assoc; (split; [reflexivity|eauto]).
  - destruct (for_links_quiet b links [] _ _ _ Hloop) as (evs' & L & F).
    cbn [log] in L.
    rewrite (bind_Throw _ _ _ _ _ Hloop). cbn [fst snd].
    exists evs'. rewrite L, <- !app_assoc. repeat split. exact F.
Qed.

Lemma requests_app (a b : list event) : requests (a ++ b) = requests a ++ requests b.
Proof. apply omap_app. Qed.

Lemma requests_none (evs : list event) :
  Forall not_http_get evs -> requests evs = [].
Proof.
  induction 1 as [|ev evs Hev _ IH]; [reflexivity|].
  destruct ev; try discriminate; exact IH.
Qed.

Lemma process_link_requests browser u s :
  exists evs,
    log (snd (process_link browser u s)) = log s ++ evs /\ requests evs = [u].
Proof.
  unfold process_link. unfold bind at 1. cbn [console_log].
  unfold extract. rewrite bind_assoc.
  match goal with
  | |- context [bind (scrapeWithCheerio u) ?k ?s0] =>
      destruct (scrapeWithCheerio_total u s0) as (meta & w & Hs & _);
      rewrite (bind_Return _ _ _ _ _ Hs);
      assert (Hem : emits not_http_get (k meta))
  end.
  { unfold scrapeWithPuppeteer, scrape_page, read_page, eval_or_empty,
      uploadToCloudinary. emits_auto. }
  match goal with
  | |- context [snd (?c ?s1)] => destruct (c s1) as [r s'] eqn:E
  end.
  destruct (Hem _ _ _ E) as (evs & L & F). cbn [log snd] in *.
  exists ([EConsole (str "Parsing: " ++ u); EHttpGet u] ++ evs).
  rewrite L, <- !app_assoc. split; [reflexivity|].
  rewrite requests_app, (requests_none _ F). reflexivity.
Qed.

Lemma for_links_requests browser links acc s :
  exists evs rest,
    log (snd (for_links browser links acc s)) = log s ++ evs
    /\ links = requests evs ++ rest
    /\ (forall items, fst (for_links browser links acc s) = Return items -> rest = []).
Proof.
  revert acc s. induction links as [|u links IH]; intros acc s.
  - exists [], []. cbn. rewrite app_nil_r. auto.
  - cbn [for_links]. destruct (process_link_requests browser u s) as (ev1 & L1 & Q1).
    unfold bind. destruct (process_link browser u s) as [[it|e] s1]; cbn [snd] in *.
    + destruct (IH (acc ++ [it]) s1) as (ev2 & rest & L2 & Q2 & Hr).
      exists (ev1 ++ ev2), rest. rewrite L2, L1, <- app_assoc, requests_app, Q1.
      cbn [app]. split; [reflexivity|]. split; [now f_equal|exact Hr].
    + exists ev1, links. rewrite Q1. split; [exact L1|].
      split; [reflexivity|]. intros items H. discriminate.
Qed.

(** X20. The static requests of a run go to the links in their order,
    one to each link up to the one that throws, and to every link when
    the run returns: links are taken one at a time, none is skipped or
    asked for twice. *)
Theorem run_requests_in_order (links : list jsstring) (s : state) :
  exists evs rest,
    log (snd (run links s)) = log s ++ evs
    /\ links = requests evs ++ rest
    /\ (forall items, fst (run links s) = Return items -> rest = []).
Proof.
  rewrite run_launch.
  destruct (puppeteer_launch (world s)) as [[b|e] w1]; cbn [fst snd].
  2:{ exists [ELaunch], links. repeat split. intros items H. discriminate. }
  match goal with
  | |- context [bind (for_links b links []) _ ?s1] =>
      destruct (for_links_requests b links [] s1) as (evs & rest & L & Q & Hr)
  end.
  unfold bind. destruct (for_links b links [] _) as [[items|e] s2];
    cbn [fst snd log] in *.
  - rewrite perform_run. cbn [fst snd log].
    exists ([ELaunch] ++ evs ++ [ECloseBrowser b]), rest.
    rewrite L, <- !app_assoc, !requests_app. cbn [requests omap app].
    rewrite app_nil_r.
    destruct (browser_close b (world s2)) as [[[]|e] w3]; cbn [fst snd log];
      (split; [reflexivity|]); (split; [exact Q|]).
    + intros _ _. now apply (Hr items).
    + intros its H. discriminate.
  - exists ([ELaunch] ++ evs), rest. rewrite L, <- !app_assoc, requests_app.
    split; [reflexivity|]. split; [exact Q|]. intros items H. discriminate.
Qed.

End RunOrder.

Lemma writeArtifacts_in_order_witness :
  exists evs,
    @log disk_fills (snd (@writeArtifacts disk_fills [] (start disk_fills tt)))
    = @log disk_fills (start disk_fills tt) ++ evs
    /\ length evs = 2%nat.
Proof.
  destruct (@writeArtifacts_in_order disk_fills [] (start disk_fills tt))
    as (evs & L & H).
  exists evs. split; [exact L|].
  vm_compute in H. destruct H as [-> _]. reflexivity.
Defined.

Lemma main_stops_early_witness :
  @main wrong_column (start wrong_column tt)
  = (Throw (Error (str "No links found in sheet.")),
     @mkState wrong_column tt
       [EConsole (str "Fetching sheet CSV...");
        EHttpGet (str "https://sheet.example/pub?output=csv")]).
Proof.
  apply (@main_stops_early wrong_column (start wrong_column tt)).
  reflexivity.
Defined.

Lemma run_requests_in_order_witness :
  exists evs,
    @log healthy (snd (@run healthy [str "https://a.example/x/"] (start healthy tt)))
    = evs /\ requests evs = [str "https://a.example/x/"].
Proof.
  destruct (@run_requests_in_order healthy [str "https://a.example/x/"]
              (start healthy tt)) as (evs & rest & L & Q & Hr).
  exists evs. split; [exact L|].
  rewrite (Hr [mkItem (str "Deck") (str "Forty slides.")
                 (str "https://res.cloudinary.com/demo/image/upload/v1/products/deck.png")
                 (str "https://a.example/x/")]) in Q
    by (vm_compute; reflexivity).
  rewrite app_nil_r in Q. now symmetry.
Defined.

(* ===================================================================== *)
(** ** The static extractor as a whole *)
(* ===================================================================== *)

Section StaticExtractor.
Context {R : Runtime}.

(** X21. [scrapeWithCheerio] never throws and makes exactly one request,
    to the URL it is given: it returns the fallback when the request or
    the parse throws, and what the selectors give otherwise. *)
Theorem scrapeWithCheerio_never_throws (u : jsstring) (s : state) :
  exists meta w,
    scrapeWithCheerio u s
    = (Return meta, {| world := w; log := log s ++ [EHttpGet u] |})
    /\ match axios_get u (world s) with
       | (Throw _, w1) => meta = fallback_meta /\ w = w1
       | (Return html, w1) =>
           w = w1 /\ match cheerio_load html with
                     | Throw _ => meta = fallback_meta
                     | Return doc => meta = extract_static doc
                     end
       end.
Proof. apply scrapeWithCheerio_total. Qed.

End StaticExtractor.

(** X22. The description of the static extractor is the default sentence
    when no source gave a non-empty string, and it is empty exactly when
    the chosen source is a non-empty string of white space only. *)
Theorem extract_static_description_empty (d : Document) :
  let desc :=
    or_str (js_or (js_or (Some (trim (collapse_ws (about_text d))))
                         (meta_description d))
                  (og_description d)) [] in
  (desc = [] -> m_description (extract_static d) = DEFAULT_DESC)
  /\ (m_description (extract_static d) = []
      <-> desc <> [] /\ trim (collapse_ws desc) = []).
Proof.
  intros desc. destruct (extract_static_description d) as [H1 H2].
  fold desc in H1, H2. split; [exact H1|]. split.
  - intros E. split.
    + intros Hd. rewrite (H1 Hd) in E. discriminate.
    + destruct (trim (collapse_ws desc)) eqn:Et; [reflexivity|].
      exfalso. apply H2; [discriminate|exact E].
  - intros [Hd Ht]. unfold extract_static. cbn [m_description]. fold desc.
    destruct desc as [|c r] eqn:Ed; [congruence|].
    cbn [str_or truthy_str]. unfold shorten_default, shorten.
    cbn [truthy negb String_of]. rewrite Ht. reflexivity.
Qed.

Lemma extract_static_description_empty_witness :
  m_description (extract_static blank_description_document) = []
  /\ m_description (extract_static empty_document) = DEFAULT_DESC.
Proof.
  split.
  - apply (extract_static_description_empty blank_description_document).
    split; [discriminate|reflexivity].
  - apply (extract_static_description_empty empty_document). reflexivity.
Defined.

(* ===================================================================== *)
(** ** The two tiers in the loop *)
(* ===================================================================== *)

Section TiersInTheLoop.
Context {R : Runtime}.

Lemma filter_not_new_page (evs : list event) :
  Forall not_new_page evs -> List.filter is_new_page evs = [].
Proof.
  induction 1 as [|ev evs Hev _ IH]; [reflexivity|].
  cbn [List.filter]. unfold not_new_page in Hev. now rewrite Hev.
Qed.

Lemma not_new_page_In (browser : Browser) (evs : list event) :
  Forall not_new_page evs -> ~ In (ENewPage browser) evs.
Proof.
  intros F Hin. rewrite List.Forall_forall in F. apply F in Hin. discriminate.
Qed.

Lemma after_extract_emits (u : jsstring) (meta : ExtractedMeta) :
  emits not_new_page
    (bind (uploadToCloudinary (m_image meta))
       (fun img =>
          bind (if negb (truthy img)
                then console_log (str "  -> Image upload failed, using placeholder")
                else ret tt)
               (fun _ => ret (make_item u meta img)))).
Proof.
  apply emits_bind; [apply uploadToCloudinary_emits|]. intros img. emits_auto.
Qed.

(** The loop body on one link. *)
Lemma process_link_tiers (browser : Browser) (u : jsstring) (s : state) :
  exists meta s2 evs,
    scrapeWithCheerio u (snd (console_log (str "Parsing: " ++ u) s))
    = (Return meta, s2)
    /\ log (snd (process_link browser u s)) = log s ++ evs
    /\ (In (ENewPage browser) evs <-> m_image meta = [])
    /\ length (List.filter is_new_page evs)
       = (if truthy_str (m_image meta) then 0 else 1)%nat.
Proof.
  destruct (extract_tiers browser u (snd (console_log (str "Parsing: " ++ u) s)))
    as (_ & meta & s0 & Hs & _ & evs & L & Hin & Hc).
  exists meta, s0. cbn [console_log snd] in *.
  unfold process_link. unfold bind at 1. cbn [console_log].
  destruct (extract browser u _) as [[m|e] s3] eqn:E; cbn [snd log] in L.
  - rewrite (bind_Return _ _ _ _ _ E).
    match goal with
    | |- context [snd (?c s3)] => destruct (c s3) as [r s4] eqn:E2
    end.
    destruct (after_extract_emits u m _ _ _ E2) as (evs2 & L2 & F2).
    exists ([EConsole (str "Parsing: " ++ u)] ++ evs ++ evs2).
    split; [exact Hs|]. cbn [snd].
    split; [rewrite L2, L, <- !app_assoc; reflexivity|]. split.
    + rewrite <- Hin, !in_app_iff. split; [|tauto].
      intros [[H|[]]|[H|H]]; [discriminate|exact H|].
      now apply not_new_page_In in H.
    + rewrite !List.filter_app, (filter_not_new_page evs2 F2), app_nil_r.
      exact Hc.
  - rewrite (bind_Throw _ _ _ _ _ E).
    exists ([EConsole (str "Parsing: " ++ u)] ++ evs).
    split; [exact Hs|]. cbn [snd].
    split; [rewrite L, <- !app_assoc; reflexivity|]. split.
    + rewrite <- Hin, in_app_iff. split; [|tauto].
      intros [[H|[]]|H]; [discriminate|exact H].
    + rewrite List.filter_app. exact Hc.
Qed.

Lemma process_link_events (browser : Browser) (u : jsstring) (s : state) :
  exists seg,
    log (snd (process_link browser u s)) = log s ++ seg
    /\ link_events browser u seg.
Proof.
  destruct (process_link_tiers browser u s) as (meta & s2 & evs & Hs & L & Hin & Hc).
  exists evs. split; [exact L|]. now exists s, meta, s2.
Qed.

(** The loop: one segment of the log per link taken, each with its own
    static result. *)
Lemma for_links_tiers (browser : Browser) (links : list jsstring)
    (acc : list GalleryItem) (s : state) :
  exists segs,
    log (snd (for_links browser links acc s)) = log s ++ concat segs
    /\ Forall2 (link_events browser) (take (length segs) links) segs
    /\ (forall items, fst (for_links browser links acc s) = Return items ->
          length segs = length links).
Proof.
  revert acc s. induction links as [|u links IH]; intros acc s.
  - exists []. cbn. rewrite app_nil_r. repeat split. constructor.
  - cbn [for_links]. destruct (process_link_events browser u s) as (seg & L & Hseg).
    unfold bind. destruct (process_link browser u s) as [[it|e] s1]; cbn [snd] in L.
    + destruct (IH (acc ++ [it]) s1) as (segs & L2 & F & Hr).
      exists (seg :: segs). cbn [concat length take].
      rewrite L2, L, <- app_assoc. split; [reflexivity|].
      split; [now constructor|]. intros items H. f_equal. now apply (Hr items).
    + exists [seg]. cbn [concat length take fst snd]. rewrite app_nil_r.
      split; [exact L|]. split; [|intros items H; discriminate].
      rewrite take_0. repeat constructor. exact Hseg.
Qed.

Lemma run_tiers (links : list jsstring) (s : state) :
  exists segs closing,
    log (snd (run links s)) = log s ++ ELaunch :: concat segs ++ closing
    /\ Forall not_new_page closing
    /\ (exists browser,
          Forall2 (link_events browser) (take (length segs) links) segs)
    /\ (forall items, fst (run links s) = Return items ->
          length segs = length links).
Proof.
  rewrite run_launch.
  destruct (puppeteer_launch (world s)) as [[b|e] w1]; cbn [fst snd].
  2:{ exists [], []. cbn. repeat split; [constructor|exists 0%nat; constructor|].
      intros items H. discriminate. }
  match goal with
  | |- context [bind (for_links b links []) _ ?s1] =>
      destruct (for_links_tiers b links [] s1) as (segs & L & F & Hr)
  end.
  unfold bind. destruct (for_links b links [] _) as [[items|e] s2];
    cbn [fst snd log] in *.
  - rewrite perform_run. exists segs, [ECloseBrowser b].
    destruct (browser_close b (world s2)) as [[[]|e] w3]; cbn [fst snd log];
      rewrite L, <- !app_assoc;
      (split; [reflexivity|]); (split; [repeat constructor|]);
      (split; [now exists b|]); intros its H; now apply (Hr items).
  - exists segs, []. rewrite L, <- !app_assoc, app_nil_r.
    split; [reflexivity|]. split; [constructor|]. split; [now exists b|].
    intros its H. discriminate.
Qed.

(** C1. For every link the loop takes, the rendered extractor is used
    exactly when the static extractor returned an empty image for that
    link. In the extraction step: with an image, [extract] is the static
    result; without, it is [scrapeWithPuppeteer] run after it. In the
    loop body: what [process_link] logs for the link holds the opening of
    a page, once, exactly when the static image is empty, and no opening
    otherwise. In a run: the log is the launch, then one such segment per
    link taken, in order, one for every link when the run returns, then
    at most the closing of the browser. A page with an [og:image] meta
    has an image. *)
Theorem rendered_iff_static_image_empty (browser : Browser) (u : jsstring)
    (links : list jsstring) (s : state) :
  (forall doc c r, og_image doc = Some (c :: r) ->
     m_image (extract_static doc) <> [])
  /\ (exists meta s0,
        scrapeWithCheerio u s = (Return meta, s0)
        /\ match m_image meta with
           | [] =>
               extract browser u s
               = scrapeWithPuppeteer browser u
                   (snd (console_log (str "  -> Fallback to Puppeteer") s0))
           | _ :: _ => extract browser u s = (Return meta, s0)
           end
        /\ exists evs,
             log (snd (extract browser u s)) = log s ++ evs
             /\ (In (ENewPage browser) evs <-> m_image meta = [])
             /\ length (List.filter is_new_page evs)
                = (if truthy_str (m_image meta) then 0 else 1)%nat)
  /\ (exists meta s2 evs,
        scrapeWithCheerio u (snd (console_log (str "Parsing: " ++ u) s))
        = (Return meta, s2)
        /\ log (snd (process_link browser u s)) = log s ++ evs
        /\ (In (ENewPage browser) evs <-> m_image meta = [])
        /\ length (List.filter is_new_page evs)
           = (if truthy_str (m_image meta) then 0 else 1)%nat)
  /\ (exists segs closing,
        log (snd (run links s)) = log s ++ ELaunch :: concat segs ++ closing
        /\ Forall not_new_page closing
        /\ (exists b,
              Forall2 (link_events b) (take (length segs) links) segs)
        /\ (forall items, fst (run links s) = Return items ->
              length segs = length links)).
Proof.
  split; [apply og_image_found|]. split; [apply extract_tiers|].
  split; [apply process_link_tiers|apply run_tiers].
Qed.

End TiersInTheLoop.

Lemma rendered_iff_static_image_empty_witness :
  m_image (extract_static og_document) <> []
  /\ ~ In (ENewPage 0%nat)
        (@log healthy
           (snd (@process_link healthy 0%nat (str "https://a.example/x/")
                   (start healthy tt))))
  /\ In (ENewPage 0%nat)
        (@log nothing_found
           (snd (@process_link nothing_found 0%nat (str "https://a.example/x/")
                   (start nothing_found tt)))).
Proof.
  split; [|split].
  - destruct (@rendered_iff_static_image_empty healthy 0%nat
                (str "https://a.example/x/") [] (start healthy tt)) as (Hog & _).
    apply (Hog og_document 47%N (str "/cdn.example/deck.png")). reflexivity.
  - destruct (@rendered_iff_static_image_empty healthy 0%nat
                (str "https://a.example/x/") [] (start healthy tt))
      as (_ & _ & (meta & s2 & evs & Hs & L & Hin & _) & _).
    rewrite L. cbn [start log app]. rewrite Hin.
    vm_compute in Hs. injection Hs as <- _. discriminate.
  - destruct (@rendered_iff_static_image_empty nothing_found 0%nat
                (str "https://a.example/x/") [] (start nothing_found tt))
      as (_ & _ & (meta & s2 & evs & Hs & L & Hin & _) & _).
    rewrite L. cbn [start log app]. rewrite Hin.
    vm_compute in Hs. injection Hs as <- _. reflexivity.
Defined.
